(** * PruningService (packages/bitcore-node/src/services/pruning.ts)

    A shallow embedding of the pruning service: the closure loop that
    turns a seed transaction into its affected set, the two cascades
    ([removeOldMempool], [clearInvalid]), the stream pipeline that feeds
    them, and the single-flight [detectAndClear] entry point.

    The two MongoDB collections are lists of records.  Every call the
    service makes on a collaborator (logger, collections, the
    [yieldRelatedOutputs] generator) is recorded, in program order, in
    the [trace] of the world. *)

From Stdlib Require Import ZArith List String Bool Lia DecimalString Permutation.
Import ListNotations.
Open Scope string_scope.
Open Scope Z_scope.

(** ** Data model *)

(** [ITransaction] (models/baseTransaction), the fields the service reads. *)
Record ITransaction := {
  tx_chain : string;
  tx_network : string;
  txid : string;
  blockHeight : Z;
  blockTimeNormalized : Z   (* a Date, in milliseconds *)
}.

(** [ICoin] (models/coin).  [spentTxid] may be absent. *)
Record ICoin := {
  coin_chain : string;
  coin_network : string;
  mintTxid : string;
  mintIndex : Z;
  mintHeight : Z;
  spentTxid : option string;
  spentHeight : Z
}.

(** [new Error(message)].  [stack] keeps the header line of the V8 stack
    string; the call-site lines are not modelled. *)
Record Error := { message : string }.

Definition stack (err : Error) : string := "Error: " ++ message err.

(** JavaScript truthiness of a [string | undefined] value. *)
Definition truthy (v : option string) : bool :=
  match v with
  | Some s => negb (String.eqb s "")
  | None => false
  end.

(** Template-literal rendering of an integer. *)
Definition show (n : Z) : string := NilZero.string_of_int (Z.to_int n).

(** *** Set<string>

    A JavaScript [Set] iterates in insertion order, and [Array.from]
    returns that order: a duplicate-free list, new members at the end. *)
Definition Set_has (x : string) (s : list string) : bool :=
  existsb (String.eqb x) s.

Definition Set_add (x : string) (s : list string) : list string :=
  if Set_has x s then s else (s ++ [x])%list.

Definition Array_from (s : list string) : list string := s.

(** *** Collection filters and updates

    The filter documents the service writes, one optional field per key
    that occurs in the source. *)
Record TxFilter := {
  q_chain : option string;
  q_network : option string;
  q_txid_in : option (list string);
  q_blockHeight : option Z;
  q_blockTimeNormalized_lt : option Z
}.

Record CoinFilter := {
  cq_chain : option string;
  cq_network : option string;
  cq_mintTxid_in : option (list string);
  cq_spentTxid_in : option (list string);
  cq_mintHeight : option Z
}.

(** An absent key constrains nothing. *)
Definition holds {A : Type} (key : option A) (test : A -> bool) : bool :=
  match key with
  | Some a => test a
  | None => true
  end.

Definition matchesTx (q : TxFilter) (t : ITransaction) : bool :=
  holds (q_chain q) (String.eqb (tx_chain t))
  && holds (q_network q) (String.eqb (tx_network t))
  && holds (q_txid_in q) (Set_has (txid t))
  && holds (q_blockHeight q) (Z.eqb (blockHeight t))
  && holds (q_blockTimeNormalized_lt q) (Z.ltb (blockTimeNormalized t)).

(** [{ spentTxid: { $in: [...] } }] never matches a coin without the field. *)
Definition matchesCoin (q : CoinFilter) (c : ICoin) : bool :=
  holds (cq_chain q) (String.eqb (coin_chain c))
  && holds (cq_network q) (String.eqb (coin_network c))
  && holds (cq_mintTxid_in q) (Set_has (mintTxid c))
  && holds (cq_spentTxid_in q)
       (fun ids => match spentTxid c with
                   | Some s => Set_has s ids
                   | None => false
                   end)
  && holds (cq_mintHeight q) (Z.eqb (mintHeight c)).

(** [$set] documents. *)
Record TxSet := { set_blockHeight : option Z }.

Record CoinSet := {
  set_mintHeight : option Z;
  set_spentHeight : option Z
}.

Definition applyTxSet (u : TxSet) (t : ITransaction) : ITransaction :=
  {| tx_chain := tx_chain t;
     tx_network := tx_network t;
     txid := txid t;
     blockHeight := match set_blockHeight u with
                    | Some h => h
                    | None => blockHeight t
                    end;
     blockTimeNormalized := blockTimeNormalized t |}.

Definition applyCoinSet (u : CoinSet) (c : ICoin) : ICoin :=
  {| coin_chain := coin_chain c;
     coin_network := coin_network c;
     mintTxid := mintTxid c;
     mintIndex := mintIndex c;
     mintHeight := match set_mintHeight u with
                   | Some h => h
                   | None => mintHeight c
                   end;
     spentTxid := spentTxid c;
     spentHeight := match set_spentHeight u with
                    | Some h => h
                    | None => spentHeight c
                    end |}.

(** ** The world *)

Inductive Event :=
| Logger_info (msg : string)
| Logger_error (msg : string)
| Tx_countDocuments (q : TxFilter)
| Tx_find (q : TxFilter)
| Tx_yieldRelatedOutputs (forTx : string)
| Yielded (coin : ICoin)
| Tx_updateMany (q : TxFilter) (u : TxSet)
| Tx_deleteMany (q : TxFilter)
| Coin_updateMany (q : CoinFilter) (u : CoinSet)
| Coin_deleteMany (q : CoinFilter).

Definition isMutation (e : Event) : bool :=
  match e with
  | Tx_updateMany _ _ | Tx_deleteMany _
  | Coin_updateMany _ _ | Coin_deleteMany _ => true
  | _ => false
  end.

Record World := {
  transactions : list ITransaction;   (* transactionModel.collection *)
  coins : list ICoin;                 (* coinModel.collection *)
  stopping : bool;                    (* this.stopping *)
  running : bool;                     (* this.running *)
  now : Z;                            (* Date.now() *)
  trace : list Event
}.

Definition emit (e : Event) (w : World) : World :=
  {| transactions := transactions w; coins := coins w;
     stopping := stopping w; running := running w; now := now w;
     trace := (trace w ++ [e])%list |}.

Definition set_transactions (l : list ITransaction) (w : World) : World :=
  {| transactions := l; coins := coins w;
     stopping := stopping w; running := running w; now := now w;
     trace := trace w |}.

Definition set_coins (l : list ICoin) (w : World) : World :=
  {| transactions := transactions w; coins := l;
     stopping := stopping w; running := running w; now := now w;
     trace := trace w |}.

Definition set_running (b : bool) (w : World) : World :=
  {| transactions := transactions w; coins := coins w;
     stopping := stopping w; running := b; now := now w;
     trace := trace w |}.

Definition set_stopping (b : bool) (w : World) : World :=
  {| transactions := transactions w; coins := coins w;
     stopping := b; running := running w; now := now w;
     trace := trace w |}.

Definition mutationsOf (evs : list Event) : list Event := filter isMutation evs.

(** ** Async functions

    An awaited promise resolves, rejects, or never settles. *)
Inductive Promise (A : Type) :=
| Resolved (a : A)
| Rejected (err : Error)
| Pending.
Arguments Resolved {A} a.
Arguments Rejected {A} err.
Arguments Pending {A}.

Definition Async (A : Type) : Type := World -> Promise A * World.

Definition ret {A : Type} (a : A) : Async A := fun w => (Resolved a, w).

Definition throw {A : Type} (err : Error) : Async A := fun w => (Rejected err, w).

Definition bind {A B : Type} (m : Async A) (k : A -> Async B) : Async B :=
  fun w =>
    match m w with
    | (Resolved a, w') => k a w'
    | (Rejected err, w') => (Rejected err, w')
    | (Pending, w') => (Pending, w')
    end.

Notation "x <- m ;; k" := (bind m (fun x => k))
  (at level 61, m at next level, right associativity).
Notation "m ;;; k" := (bind m (fun _ => k))
  (at level 61, right associativity).

(** [cond && await action] as a statement. *)
Definition when (cond : bool) (action : Async unit) : Async unit :=
  if cond then action else ret tt.

(** Collaborator calls. *)
Definition logger_info (msg : string) : Async unit :=
  fun w => (Resolved tt, emit (Logger_info msg) w).

Definition logger_error (msg : string) : Async unit :=
  fun w => (Resolved tt, emit (Logger_error msg) w).

Definition Date_now : Async Z := fun w => (Resolved (now w), w).

Definition countDocuments (q : TxFilter) : Async Z :=
  fun w => (Resolved (Z.of_nat (List.length (filter (matchesTx q) (transactions w)))),
            emit (Tx_countDocuments q) w).

(** The cursor, read at the time of the call. *)
Definition find (q : TxFilter) : Async (list ITransaction) :=
  fun w => (Resolved (filter (matchesTx q) (transactions w)),
            emit (Tx_find q) w).

Definition tx_updateMany (q : TxFilter) (u : TxSet) : Async unit :=
  fun w =>
    (Resolved tt,
     emit (Tx_updateMany q u)
       (set_transactions
          (map (fun t => if matchesTx q t then applyTxSet u t else t)
             (transactions w)) w)).

Definition coin_updateMany (q : CoinFilter) (u : CoinSet) : Async unit :=
  fun w =>
    (Resolved tt,
     emit (Coin_updateMany q u)
       (set_coins
          (map (fun c => if matchesCoin q c then applyCoinSet u c else c)
             (coins w)) w)).

Definition tx_deleteMany (q : TxFilter) : Async unit :=
  fun w =>
    (Resolved tt,
     emit (Tx_deleteMany q)
       (set_transactions
          (filter (fun t => negb (matchesTx q t)) (transactions w)) w)).

Definition coin_deleteMany (q : CoinFilter) : Async unit :=
  fun w =>
    (Resolved tt,
     emit (Coin_deleteMany q)
       (set_coins
          (filter (fun c => negb (matchesCoin q c)) (coins w)) w)).

(** [Promise.all]: the calls are started in array order and awaited
    together. *)
Fixpoint Promise_all (ps : list (Async unit)) : Async unit :=
  match ps with
  | [] => ret tt
  | p :: rest => p ;;; Promise_all rest
  end.

(** ** Module-level configuration (pruning.ts, lines 11-39) *)

(** The parsed command line, each flag by its truthiness. *)
Record Args := { OLD : bool; INVALID : bool; EXIT : bool; DRY : bool }.

(** An entry of [Config.chainNetworks()]. *)
Record ChainNetwork := { chain : option string; network : option string }.

(** [SpentHeightIndicators] (types/Coin): the two members the service
    uses.  Their values are not part of this file and stay abstract. *)
Record SpentHeightIndicators := { conflicting : Z; unspent : Z }.

Record Env := {
  args : Args;
  CHAIN : option string;
  NETWORK : option string;
  MEMPOOL_AGE : Z;
  Config_chainNetworks : list ChainNetwork;
  indicators : SpentHeightIndicators;
  (** [transactionModel.yieldRelatedOutputs(txid)]: the coins the
      generator produces, in order, when it is read to its end against
      the two collections. *)
  yieldRelatedOutputs : list ITransaction -> list ICoin -> string -> list ICoin
}.

Definition ONE_MIN : Z := 1000 * 60.
Definition ONE_HOUR : Z := 60 * ONE_MIN.
Definition ONE_DAY : Z := 24 * ONE_HOUR.

(** The string a truthy [string | undefined] holds. *)
Definition str (v : option string) : string :=
  match v with
  | Some s => s
  | None => ""
  end.

(** Lines 132-134 / 180-182:
    [if (coin.spentTxid) { spentTxids.add(coin.spentTxid); }]. *)
Definition addSpent (spentTxids : list string) (coin : ICoin) : list string :=
  match spentTxid coin with
  | Some s => if truthy (Some s) then Set_add s spentTxids else spentTxids
  | None => spentTxids
  end.

(** ** The service *)

Section PruningService.

Variable env : Env.

(** *** Cascade executor *)

(** The array given to [Promise.all] in [removeOldMempool] (lines 226-229). *)
Definition removals (chain network : string) (txids : list string)
  : list (Async unit) :=
  [ tx_deleteMany
      {| q_chain := Some chain; q_network := Some network;
         q_txid_in := Some txids; q_blockHeight := Some (-1);
         q_blockTimeNormalized_lt := None |};
    coin_deleteMany
      {| cq_chain := Some chain; cq_network := Some network;
         cq_mintTxid_in := Some txids; cq_spentTxid_in := None;
         cq_mintHeight := Some (-1) |} ].

(** [removeOldMempool] (lines 221-230). *)
Definition removeOldMempool (chain network : string) (txids : list string)
  : Async unit :=
  logger_info ((if DRY (args env) then "DRY RUN - " else "") ++ "Removing "
               ++ show (Z.of_nat (List.length txids)) ++ " txids") ;;;
  if DRY (args env) then ret tt
  else Promise_all (removals chain network txids).

(** The array given to [Promise.all] in [clearInvalid] (lines 202-218). *)
Definition invalidations (invalidTxids : list string) : list (Async unit) :=
  [ (* Set all invalid txs to conflicting status *)
    tx_updateMany
      {| q_chain := None; q_network := None;
         q_txid_in := Some invalidTxids; q_blockHeight := None;
         q_blockTimeNormalized_lt := None |}
      {| set_blockHeight := Some (conflicting (indicators env)) |};
    (* Set all coins that were pending to be spent by an invalid tx back
       to unspent *)
    coin_updateMany
      {| cq_chain := None; cq_network := None;
         cq_mintTxid_in := None; cq_spentTxid_in := Some invalidTxids;
         cq_mintHeight := None |}
      {| set_mintHeight := None;
         set_spentHeight := Some (unspent (indicators env)) |};
    (* Set all coins that were created by invalid txs to conflicting
       status *)
    coin_updateMany
      {| cq_chain := None; cq_network := None;
         cq_mintTxid_in := Some invalidTxids; cq_spentTxid_in := None;
         cq_mintHeight := None |}
      {| set_mintHeight := Some (conflicting (indicators env));
         set_spentHeight := None |} ].

(** [clearInvalid] (lines 197-219). *)
Definition clearInvalid (invalidTxids : list string) : Async unit :=
  logger_info ((if DRY (args env) then "DRY RUN - " else "") ++ "Invalidating "
               ++ show (Z.of_nat (List.length invalidTxids)) ++ " txids") ;;;
  if DRY (args env) then ret tt
  else Promise_all (invalidations invalidTxids).

(** *** Closure walker

    The [for await] loop of both transforms (lines 124-135 and 172-183,
    the same text).  The generator is read one coin at a time; a coin is
    [Yielded] when the loop receives it.  The loop ends in one of three
    ways: the generator is exhausted ([inr], the set and the counter),
    [return cb(new Error(...))] ([inl], the callback's argument), or
    [throw] (the promise of the async transform rejects). *)
Fixpoint forAwait (tx : ITransaction) (outputGenerator : list ICoin)
    (spentTxids : list string) (count : Z)
  : Async (Error + list string * Z) :=
  match outputGenerator with
  | [] => ret (inr (spentTxids, count))
  | coin :: rest =>
      (fun w => (Resolved tt, emit (Yielded coin) w)) ;;;
      if (mintHeight coin >=? 0) || (spentHeight coin >=? 0) then
        ret (inl {| message := "Invalid coin! " ++ mintTxid coin ++ " " |})
      else
        let count := count + 1 in
        if count >? 50 then
          throw {| message := txid tx ++ " has too many decendents" |}
        else
          forAwait tx rest (addSpent spentTxids coin) count
  end.

(** Lines 121-123 / 169-171 and the loop. *)
Definition relatedOutputs (tx : ITransaction) : Async (Error + list string * Z) :=
  fun w =>
    let outputGenerator :=
      yieldRelatedOutputs env (transactions w) (coins w) (txid tx) in
    forAwait tx outputGenerator [] 0 (emit (Tx_yieldRelatedOutputs (txid tx)) w).

(** *** Stream pipeline

    A transform is an async function that reports through its callback.
    Its model resolves to the argument it gave [cb] ([None] for [cb()]);
    it rejects when the function threw before calling [cb]. *)

(** The transform of [processOldMempoolTxs] (lines 115-141). *)
Definition transformOld (chain network : string) (tx : ITransaction)
  : Async (option Error) :=
  fun w =>
    if stopping w then ret (Some {| message := "Stopping" |}) w
    else
      (logger_info ("Finding " ++ txid tx ++ " outputs and dependent outputs") ;;;
       r <- relatedOutputs tx ;;
       match r with
       | inl err => ret (Some err)
       | inr (spentTxids, count) =>
           let spentTxids := Set_add (txid tx) spentTxids in
           let uniqueTxids := Array_from spentTxids in
           removeOldMempool chain network uniqueTxids ;;;
           logger_info ("Removed " ++ txid tx ++ " transaction and "
                        ++ show count ++ " dependent txs") ;;;
           ret None
       end) w.

(** The transform of [processAllInvalidTxs] (lines 163-189). *)
Definition transformInvalid (tx : ITransaction) : Async (option Error) :=
  fun w =>
    if stopping w then ret (Some {| message := "Stopping" |}) w
    else
      (logger_info ("Invalidating " ++ txid tx ++ " outputs and dependent outputs") ;;;
       r <- relatedOutputs tx ;;
       match r with
       | inl err => ret (Some err)
       | inr (spentTxids, count) =>
           let spentTxids := Set_add (txid tx) spentTxids in
           let uniqueTxids := Array_from spentTxids in
           clearInvalid uniqueTxids ;;;
           logger_info ("Invalidated " ++ txid tx ++ " and "
                        ++ show count ++ " dependent txs") ;;;
           ret None
       end) w.

(** [cursor.pipe(new Transform({ transform })).on('finish', resolve)
    .on('error', reject)]: one record at a time.  [cb()] asks for the next
    record, [cb(err)] makes the stream emit 'error'.  The stream ignores
    what [transform] returns, so when the async function throws, [cb] is
    never called and neither event is emitted. *)
Fixpoint pipe (transform : ITransaction -> Async (option Error))
    (cursor : list ITransaction) : Async unit :=
  match cursor with
  | [] => ret tt
  | data :: rest =>
      fun w =>
        match transform data w with
        | (Resolved None, w') => pipe transform rest w'
        | (Resolved (Some err), w') => (Rejected err, w')
        | (Rejected _, w') => (Pending, w')
        | (Pending, w') => (Pending, w')
        end
  end.

(** The filter of lines 102-107 and 111. *)
Definition oldMempoolTxs (chain network : string) (oldTime : Z) : TxFilter :=
  {| q_chain := Some chain; q_network := Some network;
     q_txid_in := None; q_blockHeight := Some (-1);
     q_blockTimeNormalized_lt := Some oldTime |}.

(** [processOldMempoolTxs] (lines 100-148). *)
Definition processOldMempoolTxs (chain network : string) (days : Z)
  : Async unit :=
  t <- Date_now ;;
  let oldTime := t - days * ONE_DAY in
  count <- countDocuments (oldMempoolTxs chain network oldTime) ;;
  logger_info ("Found " ++ show count ++ " outdated " ++ chain ++ " "
               ++ network ++ " mempool txs") ;;;
  cursor <- find (oldMempoolTxs chain network oldTime) ;;
  pipe (transformOld chain network) cursor ;;;
  logger_info ("Removed all old mempool txs within the last " ++ show days
               ++ " days").

(** The filter of lines 151-155 and 159. *)
Definition invalidTxs (chain network : string) : TxFilter :=
  {| q_chain := Some chain; q_network := Some network;
     q_txid_in := None; q_blockHeight := Some (-3);
     q_blockTimeNormalized_lt := None |}.

(** [processAllInvalidTxs] (lines 150-195). *)
Definition processAllInvalidTxs (chain network : string) : Async unit :=
  count <- countDocuments (invalidTxs chain network) ;;
  logger_info ("Found " ++ show count ++ " invalid " ++ chain ++ " "
               ++ network ++ " txs") ;;;
  cursor <- find (invalidTxs chain network) ;;
  pipe transformInvalid cursor.

(** *** Lifecycle controller *)

(** [stop] (lines 69-73); the timer is not modelled. *)
Definition stop : Async unit :=
  logger_info "Stopping Pruning Service" ;;;
  fun w => (Resolved tt, set_stopping true w).

(** The [for ... of Config.chainNetworks()] loop (lines 84-91). *)
Fixpoint forOf (chainNetworks : list ChainNetwork) : Async unit :=
  match chainNetworks with
  | [] => ret tt
  | chainNetwork :: rest =>
      if negb (truthy (chain chainNetwork)) || negb (truthy (network chainNetwork))
      then throw {| message := "Config structure should contain both a chain and network" |}
      else
        when (OLD (args env))
          (processOldMempoolTxs (str (chain chainNetwork))
             (str (network chainNetwork)) (MEMPOOL_AGE env)) ;;;
        when (INVALID (args env))
          (processAllInvalidTxs (str (chain chainNetwork))
             (str (network chainNetwork))) ;;;
        forOf rest
  end.

(** The [try] block of [detectAndClear] (lines 80-92). *)
Definition detectAndClear_try : Async unit :=
  if truthy (CHAIN env) && truthy (NETWORK env) then
    when (OLD (args env))
      (processOldMempoolTxs (str (CHAIN env)) (str (NETWORK env))
         (MEMPOOL_AGE env)) ;;;
    when (INVALID (args env))
      (processAllInvalidTxs (str (CHAIN env)) (str (NETWORK env)))
  else forOf (Config_chainNetworks env).

(** [catch] and [finally] (lines 93-97), for a [try] block that ended as
    [r].  A block that never settles reaches neither. *)
Definition detectAndClear_settle (r : Promise unit) : Async unit :=
  fun w =>
    match r with
    | Resolved _ => (Resolved tt, set_running false w)
    | Rejected err =>
        (Resolved tt,
         set_running false
           (emit (Logger_error ("Pruning Error: " ++ stack err)) w))
    | Pending => (Pending, w)
    end.

(** [detectAndClear] (lines 75-98). *)
Definition detectAndClear : Async unit :=
  fun w =>
    if running w then (Resolved tt, w)
    else
      let (r, w') := detectAndClear_try (set_running true w) in
      detectAndClear_settle r w'.

End PruningService.

(** ** Triggers over time

    The timer calls [detectAndClear] whether or not an earlier call has
    finished.  Lines 76-77 run without an [await] between them, so the
    test and the set of the latch are one step.  A [Trigger] runs them
    and, when it gets past the latch, the [try] block; the block's
    outcome is kept in [inflight] until [Settle i] runs the [catch] and
    [finally] of the [i]-th run in flight.  A run whose block never
    settles stays in flight. *)
Inductive Tick :=
| Trigger
| Settle (i : nat).

Record Scheduler := {
  world : World;
  inflight : list (Promise unit)
}.

Definition idle (w : World) : Scheduler := {| world := w; inflight := [] |}.

Definition tick (env : Env) (s : Scheduler) (t : Tick) : Scheduler :=
  match t with
  | Trigger =>
      if running (world s) then s
      else
        let (r, w') := detectAndClear_try env (set_running true (world s)) in
        {| world := w'; inflight := (inflight s ++ [r])%list |}
  | Settle i =>
      match nth_error (inflight s) i with
      | Some Pending | None => s
      | Some r =>
          {| world := snd (detectAndClear_settle r (world s));
             inflight := (firstn i (inflight s) ++ skipn (S i) (inflight s))%list |}
      end
  end.

Definition ticks (env : Env) (ts : list Tick) (s : Scheduler) : Scheduler :=
  fold_left (tick env) ts s.

(** ** Vocabulary of the properties *)

(** The test of lines 125 and 173. *)
Definition confirmed (coin : ICoin) : bool :=
  (mintHeight coin >=? 0) || (spentHeight coin >=? 0).

Definition unconfirmed (coin : ICoin) : Prop :=
  mintHeight coin < 0 /\ spentHeight coin < 0.

(** The errors of lines 126/174 and 130/178. *)
Definition invalidCoin (coin : ICoin) : Error :=
  {| message := "Invalid coin! " ++ mintTxid coin ++ " " |}.

Definition tooManyDecendents (tx : ITransaction) : Error :=
  {| message := txid tx ++ " has too many decendents" |}.

(** The test of lines 132 and 180 passes and the coin names [x]. *)
Definition spentBy (coin : ICoin) (x : string) : Prop :=
  spentTxid coin = Some x /\ x <> "".

(** A world after a list of calls. *)
Definition emits (evs : list Event) (w : World) : World :=
  fold_left (fun w e => emit e w) evs w.

(** The calls every candidate starts with, and the coins it then reads. *)
Definition walk (finding : string) (tx : ITransaction) (yielded : list ICoin)
  : list Event :=
  (Logger_info (finding ++ txid tx ++ " outputs and dependent outputs")
   :: Tx_yieldRelatedOutputs (txid tx) :: map Yielded yielded)%list.

Definition isYielded (e : Event) : bool :=
  match e with
  | Yielded _ => true
  | _ => false
  end.

(** ** Sample data *)

Definition mkTx (chain network id : string) (height time : Z) : ITransaction :=
  {| tx_chain := chain; tx_network := network; txid := id;
     blockHeight := height; blockTimeNormalized := time |}.

Definition mkCoin (chain network mint : string) (index height : Z)
    (spent : option string) (spentH : Z) : ICoin :=
  {| coin_chain := chain; coin_network := network; mintTxid := mint;
     mintIndex := index; mintHeight := height;
     spentTxid := spent; spentHeight := spentH |}.

(** Modelled from the spec: [yieldRelatedOutputs] of the transaction
    model is not part of this file; the store traversal interface yields
    the coins reachable from a seed by multi-hop mint/spend expansion.
    Here: the coins a transaction minted, then those of the transactions
    that spend them, to a fixed depth.  Only the sample stores use it. *)
Fixpoint expand (depth : nat) (coins : list ICoin) (forTx : string)
  : list ICoin :=
  match depth with
  | O => []
  | S depth =>
      let minted := filter (fun c => String.eqb (mintTxid c) forTx) coins in
      (minted
       ++ flat_map (fun c => if truthy (spentTxid c)
                             then expand depth coins (str (spentTxid c))
                             else []) minted)%list
  end.

(** A configuration with both modes on.  The two indicator values are
    sample values, distinct from each other and from the mempool
    height. *)
Definition sampleEnv (dry : bool) (pair : option string * option string)
    (pairs : list ChainNetwork) : Env :=
  {| args := {| OLD := true; INVALID := true; EXIT := false; DRY := dry |};
     CHAIN := fst pair; NETWORK := snd pair;
     MEMPOOL_AGE := 7;
     Config_chainNetworks := pairs;
     indicators := {| conflicting := -3; unspent := -2 |};
     yieldRelatedOutputs := fun _ coins forTx => expand 60 coins forTx |}.

Definition btc : Env := sampleEnv false (Some "BTC", Some "mainnet") [].
Definition btcDry : Env := sampleEnv true (Some "BTC", Some "mainnet") [].
Definition btcThenBch : Env :=
  sampleEnv false (None, None)
    [ {| chain := Some "BTC"; network := Some "mainnet" |};
      {| chain := Some "BCH"; network := Some "mainnet" |} ].

Definition mkWorld (txs : list ITransaction) (cs : list ICoin) : World :=
  {| transactions := txs; coins := cs; stopping := false; running := false;
     now := 8 * ONE_DAY; trace := [] |}.

(** Scenario A: [T] has an unspent output and one spent by [T2]. *)
Definition seedT : ITransaction := mkTx "BTC" "mainnet" "T" (-1) 0.

Definition scenarioA : World :=
  mkWorld
    [ seedT; mkTx "BTC" "mainnet" "T2" (-1) (7 * ONE_DAY) ]
    [ mkCoin "BTC" "mainnet" "T" 0 (-1) None (-2);
      mkCoin "BTC" "mainnet" "T" 1 (-1) (Some "T2") (-1);
      mkCoin "BTC" "mainnet" "T2" 0 (-1) None (-2) ].

(** Scenario B: [T] is invalid and its one output is spent by [T2]. *)
Definition invalidT : ITransaction := mkTx "BTC" "mainnet" "T" (-3) 0.

Definition scenarioB : World :=
  mkWorld
    [ invalidT; mkTx "BTC" "mainnet" "T2" (-1) 0 ]
    [ mkCoin "BTC" "mainnet" "T" 0 (-1) (Some "T2") (-1);
      mkCoin "BTC" "mainnet" "T2" 0 (-1) None (-2) ].

(** [n] outputs of [T], all unconfirmed and unspent. *)
Definition outputsOfT (n : nat) : list ICoin :=
  map (fun i => mkCoin "BTC" "mainnet" "T" (Z.of_nat i) (-1) None (-2)) (seq 0 n).

(** One output of [T] that a block at height 100 has confirmed. *)
Definition confirmedOutput (index : Z) : ICoin :=
  mkCoin "BTC" "mainnet" "T" index 100 None (-2).

(** The shape of a candidate that did not reach its cascade. *)
Definition stoppedInWalk (finding : string) (tx : ITransaction)
    (yielded : list ICoin) (w w' : World) (evs : list Event) : Prop :=
  (exists k, evs = walk finding tx (firstn k yielded))
  /\ mutationsOf evs = []
  /\ transactions w' = transactions w
  /\ coins w' = coins w.

(** What [clearInvalid] is to do to one record, in the words of the
    comments of lines 203, 208 and 213. *)
Definition invalidatedTx (env : Env) (invalidTxids : list string)
    (t : ITransaction) : ITransaction :=
  if Set_has (txid t) invalidTxids
  then mkTx (tx_chain t) (tx_network t) (txid t)
         (conflicting (indicators env)) (blockTimeNormalized t)
  else t.

Definition spentByOneOf (invalidTxids : list string) (c : ICoin) : bool :=
  match spentTxid c with
  | Some s => Set_has s invalidTxids
  | None => false
  end.

Definition invalidatedCoin (env : Env) (invalidTxids : list string)
    (c : ICoin) : ICoin :=
  mkCoin (coin_chain c) (coin_network c) (mintTxid c) (mintIndex c)
    (if Set_has (mintTxid c) invalidTxids
     then conflicting (indicators env) else mintHeight c)
    (spentTxid c)
    (if spentByOneOf invalidTxids c
     then unspent (indicators env) else spentHeight c).

(** The second and the third update of [clearInvalid] on one coin. *)
Definition unspend (env : Env) (invalidTxids : list string) (c : ICoin) : ICoin :=
  if matchesCoin {| cq_chain := None; cq_network := None;
                    cq_mintTxid_in := None;
                    cq_spentTxid_in := Some invalidTxids;
                    cq_mintHeight := None |} c
  then applyCoinSet {| set_mintHeight := None;
                       set_spentHeight := Some (unspent (indicators env)) |} c
  else c.

Definition unmint (env : Env) (invalidTxids : list string) (c : ICoin) : ICoin :=
  if matchesCoin {| cq_chain := None; cq_network := None;
                    cq_mintTxid_in := Some invalidTxids;
                    cq_spentTxid_in := None;
                    cq_mintHeight := None |} c
  then applyCoinSet {| set_mintHeight := Some (conflicting (indicators env));
                       set_spentHeight := None |} c
  else c.

(** A fork: the same txid [T] on BTC, where it is invalid, and on BCH,
    where it waits in the mempool with one output. *)
Definition forked : World :=
  mkWorld
    [ mkTx "BTC" "mainnet" "T" (-3) 0; mkTx "BCH" "mainnet" "T" (-1) 0 ]
    [ mkCoin "BCH" "mainnet" "T" 0 (-1) None (-2) ].

(** The txids on two chains, for the sequential run over the pairs: an
    invalid [A] on BTC whose output a block has confirmed, an invalid [B]
    on BCH with one unconfirmed output. *)
Definition twoPairs : World :=
  mkWorld
    [ mkTx "BTC" "mainnet" "A" (-3) 0; mkTx "BCH" "mainnet" "B" (-3) 0 ]
    [ mkCoin "BTC" "mainnet" "A" 0 100 None (-2);
      mkCoin "BCH" "mainnet" "B" 0 (-1) None (-2) ].

(** The chains that [find] was asked about, call by call. *)
Definition findChains (evs : list Event) : list string :=
  flat_map (fun e => match e with
                     | Tx_find q => [str (q_chain q)]
                     | _ => []
                     end) evs.

(** *** Relations between the world before and after a call *)

Definition preserves (R : World -> World -> Prop) {A : Type} (m : Async A)
  : Prop :=
  forall w, R w (snd (m w)).

(** The fields of the service and the clock are what they were. *)
Definition sameService (w w' : World) : Prop :=
  stopping w' = stopping w /\ running w' = running w /\ now w' = now w.

(** The collections are what they were and no call changed one. *)
Definition sameStore (w w' : World) : Prop :=
  transactions w' = transactions w /\ coins w' = coins w
  /\ mutationsOf (trace w') = mutationsOf (trace w).

(** Records were deleted, none added or changed. *)
Definition onlyDeleted (w w' : World) : Prop :=
  (forall t, In t (transactions w') -> In t (transactions w))
  /\ (forall c, In c (coins w') -> In c (coins w)).

(** The filter of the transaction delete of line 227. *)
Definition deleted (chain network : string) (txids : list string) : TxFilter :=
  {| q_chain := Some chain; q_network := Some network;
     q_txid_in := Some txids; q_blockHeight := Some (-1);
     q_blockTimeNormalized_lt := None |}.

(** [T] with one unconfirmed output and one that a block confirmed. *)
Definition oneConfirmed : World :=
  mkWorld [ seedT ]
    [ mkCoin "BTC" "mainnet" "T" 0 (-1) None (-2); confirmedOutput 1 ].

(** Fifty unconfirmed outputs of [T] and a 51st that a block confirmed. *)
Definition fiftyThenConfirmed : World :=
  mkWorld [ seedT ] (outputsOfT 50 ++ [ confirmedOutput 50 ])%list.

(** Fifty-one unconfirmed outputs of [T]. *)
Definition fiftyOne : World := mkWorld [ seedT ] (outputsOfT 51).

(** At most one run is in flight, and the latch is set while one is. *)
Definition singleFlight (s : Scheduler) : Prop :=
  (List.length (inflight s) <= 1)%nat
  /\ (inflight s <> [] -> running (world s) = true).

(** ** Vocabulary of the further properties *)

(** The errors of lines 117/165 and 87. *)
Definition stoppingError : Error := {| message := "Stopping" |}.

Definition configError : Error :=
  {| message := "Config structure should contain both a chain and network" |}.

(** A transaction, a coin, that the two deletes of [removeOldMempool]
    for the pair cannot match: another chain, another network, or a
    height other than -1. *)
Definition outsideTx (chain network : string) (t : ITransaction) : bool :=
  negb (String.eqb (tx_chain t) chain && String.eqb (tx_network t) network
        && (blockHeight t =? -1)).

Definition outsideCoin (chain network : string) (c : ICoin) : bool :=
  negb (String.eqb (coin_chain c) chain && String.eqb (coin_network c) network
        && (mintHeight c =? -1)).

(** Records were only deleted, and none of those outside the pair's
    mempool. *)
Definition keepsOutside (chain network : string) (w w' : World) : Prop :=
  onlyDeleted w w'
  /\ filter (outsideTx chain network) (transactions w')
     = filter (outsideTx chain network) (transactions w)
  /\ filter (outsideCoin chain network) (coins w')
     = filter (outsideCoin chain network) (coins w).

(** A record after any number of [clearInvalid] calls: the same record,
    but for heights that moved to an indicator. *)
Definition txInvalidatedFrom (env : Env) (t t' : ITransaction) : Prop :=
  tx_chain t' = tx_chain t /\ tx_network t' = tx_network t
  /\ txid t' = txid t /\ blockTimeNormalized t' = blockTimeNormalized t
  /\ (blockHeight t' = blockHeight t
      \/ blockHeight t' = conflicting (indicators env)).

Definition coinInvalidatedFrom (env : Env) (c c' : ICoin) : Prop :=
  coin_chain c' = coin_chain c /\ coin_network c' = coin_network c
  /\ mintTxid c' = mintTxid c /\ mintIndex c' = mintIndex c
  /\ spentTxid c' = spentTxid c
  /\ (mintHeight c' = mintHeight c
      \/ mintHeight c' = conflicting (indicators env))
  /\ (spentHeight c' = spentHeight c
      \/ spentHeight c' = unspent (indicators env)).

Definition onlyInvalidated (env : Env) (w w' : World) : Prop :=
  Forall2 (txInvalidatedFrom env) (transactions w) (transactions w')
  /\ Forall2 (coinInvalidatedFrom env) (coins w) (coins w').

(** Once [stopping] is set it stays set and the store stays as it is. *)
Definition haltedSame (w w' : World) : Prop :=
  stopping w = true -> stopping w' = true /\ sameStore w w'.

(** The txids a call that changes a collection was given in [$in]. *)
Definition affectedOf (e : Event) : option (list string) :=
  match e with
  | Tx_updateMany q _ | Tx_deleteMany q => q_txid_in q
  | Coin_updateMany q _ | Coin_deleteMany q =>
      match cq_mintTxid_in q with
      | Some txids => Some txids
      | None => cq_spentTxid_in q
      end
  | _ => None
  end.

(** What a cascade and the line after it add to the trace. *)
Definition cascadeCalls (seed : string) (s : list string) (evs0 : list Event)
  : Prop :=
  filter isYielded evs0 = []
  /\ forall e, In e evs0 -> isMutation e = true ->
               affectedOf e = Some (Set_add seed s).

(** The filter of the coin delete of line 228. *)
Definition deletedCoins (chain network : string) (txids : list string)
  : CoinFilter :=
  {| cq_chain := Some chain; cq_network := Some network;
     cq_mintTxid_in := Some txids; cq_spentTxid_in := None;
     cq_mintHeight := Some (-1) |}.

(** The three facts about one txid that later [clearInvalid] calls
    cannot undo. *)
Definition invalidatedIn (env : Env) (x : string) (w : World) : Prop :=
  (forall t, In t (transactions w) -> txid t = x ->
             blockHeight t = conflicting (indicators env))
  /\ (forall c, In c (coins w) -> mintTxid c = x ->
                mintHeight c = conflicting (indicators env))
  /\ (forall c, In c (coins w) -> spentTxid c = Some x ->
                spentHeight c = unspent (indicators env)).



(** [n] calls of [detectAndClear], each one made when the one before
    has returned. *)
Definition calls (env : Env) (n : nat) (w : World) : World :=
  Nat.iter n (fun w => snd (detectAndClear env w)) w.

(** A configuration whose second entry has no network. *)
Definition btcThenBroken : Env :=
  sampleEnv false (None, None)
    [ {| chain := Some "BTC"; network := Some "mainnet" |};
      {| chain := Some "BCH"; network := None |} ].

(** * Properties *)

(** ** Traces and frames *)

Lemma trace_emits evs w : trace (emits evs w) = (trace w ++ evs)%list.
Proof.
  revert w; induction evs as [|e evs IH]; intros w; simpl.
  - now rewrite app_nil_r.
  - rewrite IH; simpl. now rewrite <- app_assoc.
Qed.

Lemma emits_app evs1 evs2 w :
  emits (evs1 ++ evs2) w = emits evs2 (emits evs1 w).
Proof. apply fold_left_app. Qed.

Lemma emits_frame evs w :
  transactions (emits evs w) = transactions w
  /\ coins (emits evs w) = coins w
  /\ stopping (emits evs w) = stopping w
  /\ running (emits evs w) = running w
  /\ now (emits evs w) = now w.
Proof.
  revert w; induction evs as [|e evs IH]; intros w; simpl; [tauto|].
  destruct (IH (emit e w)) as (-> & -> & -> & -> & ->). now simpl.
Qed.

Lemma mutationsOf_app l1 l2 :
  mutationsOf (l1 ++ l2) = (mutationsOf l1 ++ mutationsOf l2)%list.
Proof. apply filter_app. Qed.

Lemma mutationsOf_Yielded ys : mutationsOf (map Yielded ys) = [].
Proof. induction ys; simpl; auto. Qed.

Lemma mutationsOf_walk finding tx ys : mutationsOf (walk finding tx ys) = [].
Proof. unfold walk; simpl. apply mutationsOf_Yielded. Qed.

(** ** Set<string> *)

Lemma Set_has_In x s : Set_has x s = true <-> In x s.
Proof.
  unfold Set_has; rewrite existsb_exists; split.
  - intros (y & Hy & E). apply String.eqb_eq in E. now subst.
  - intros H. exists x. split; [assumption | apply String.eqb_refl].
Qed.

Lemma Set_add_In x y s : In x (Set_add y s) <-> x = y \/ In x s.
Proof.
  unfold Set_add. destruct (Set_has y s) eqn:E.
  - apply Set_has_In in E. split; [auto|]. intros [->|H]; assumption.
  - rewrite in_app_iff; simpl. intuition congruence.
Qed.

Lemma Set_add_NoDup y s : NoDup s -> NoDup (Set_add y s).
Proof.
  intros H. unfold Set_add. destruct (Set_has y s) eqn:E; [assumption|].
  assert (~ In y s) as Hn by (rewrite <- Set_has_In; congruence).
  clear E. induction H as [|a l Ha Hl IH]; simpl.
  - constructor; [intros []|constructor].
  - constructor.
    + rewrite in_app_iff; simpl. intros [H1|[H1|[]]]; [tauto|].
      apply Hn. now left.
    + apply IH. intros H1. apply Hn. now right.
Qed.

Lemma addSpent_In x s coin :
  In x (addSpent s coin) <-> In x s \/ spentBy coin x.
Proof.
  unfold addSpent, spentBy. destruct (spentTxid coin) as [t|].
  - simpl. destruct (String.eqb t "") eqn:E; simpl.
    + apply String.eqb_eq in E. subst t. split; [auto|].
      intros [H|[H1 H2]]; [assumption|]. congruence.
    + apply String.eqb_neq in E. rewrite Set_add_In. split.
      * intros [->|H]; auto.
      * intros [H|[H1 H2]]; [auto|]. left. congruence.
  - split; [auto|]. intros [H|[H1 H2]]; [assumption|discriminate].
Qed.

Lemma addSpent_NoDup s coin : NoDup s -> NoDup (addSpent s coin).
Proof.
  intros H. unfold addSpent. destruct (spentTxid coin) as [t|]; [|assumption].
  destruct (truthy (Some t)); [now apply Set_add_NoDup | assumption].
Qed.

Lemma spenders_In ys : forall s x,
  In x (fold_left addSpent ys s)
  <-> In x s \/ exists coin, In coin ys /\ spentBy coin x.
Proof.
  induction ys as [|c ys IH]; intros s x; simpl.
  - split; [auto|]. intros [H|(coin & [] & _)]. assumption.
  - rewrite IH, addSpent_In. split.
    + intros [[H|H]|(coin & H1 & H2)]; eauto.
    + intros [H|(coin & [<-|H1] & H2)]; eauto.
Qed.

Lemma spenders_NoDup ys : forall s, NoDup s -> NoDup (fold_left addSpent ys s).
Proof.
  induction ys as [|c ys IH]; intros s H; simpl; [assumption|].
  apply IH. now apply addSpent_NoDup.
Qed.

(** ** The closure loop *)

Lemma confirmed_false coin : confirmed coin = false <-> unconfirmed coin.
Proof.
  unfold confirmed, unconfirmed. rewrite orb_false_iff, !Z.geb_leb, !Z.leb_gt.
  tauto.
Qed.

(** The generator is exhausted: every coin was read and counted. *)
Lemma forAwait_completed tx ys : forall s c w,
  Forall unconfirmed ys ->
  c + Z.of_nat (List.length ys) <= 50 ->
  forAwait tx ys s c w
  = (Resolved (inr (fold_left addSpent ys s, c + Z.of_nat (List.length ys))),
     emits (map Yielded ys) w).
Proof.
  induction ys as [|coin ys IH]; intros s c w Hu Hc.
  - simpl. unfold ret. now rewrite Z.add_0_r.
  - inversion Hu as [|? ? Hcoin Hrest]; subst.
    apply confirmed_false in Hcoin. unfold confirmed in Hcoin.
    cbn [forAwait]. unfold bind at 1. rewrite Hcoin.
    cbn [List.length] in Hc. rewrite Nat2Z.inj_succ in Hc.
    destruct (Z.gtb_spec (c + 1) 50) as [E|E]; [lia|].
    rewrite IH by (assumption || lia).
    cbn [List.length map emits fold_left]. rewrite Nat2Z.inj_succ.
    replace (c + 1 + Z.of_nat (List.length ys))
      with (c + Z.succ (Z.of_nat (List.length ys))) by lia.
    reflexivity.
Qed.

(** The first coin with a confirmed height ends the loop through [cb]. *)
Lemma forAwait_invalid tx pre coin post : forall s c w,
  Forall unconfirmed pre ->
  c + Z.of_nat (List.length pre) <= 50 ->
  confirmed coin = true ->
  forAwait tx (pre ++ coin :: post) s c w
  = (Resolved (inl (invalidCoin coin)), emits (map Yielded (pre ++ [coin])) w).
Proof.
  induction pre as [|p pre IH]; intros s c w Hu Hc Hcoin.
  - unfold confirmed in Hcoin. cbn [app forAwait]. unfold bind at 1.
    now rewrite Hcoin.
  - inversion Hu as [|? ? Hp Hrest]; subst.
    apply confirmed_false in Hp. unfold confirmed in Hp.
    cbn [app forAwait]. unfold bind at 1. rewrite Hp.
    cbn [List.length] in Hc. rewrite Nat2Z.inj_succ in Hc.
    destruct (Z.gtb_spec (c + 1) 50) as [E|E]; [lia|].
    rewrite IH by (assumption || lia). reflexivity.
Qed.

(** The 51st counted coin ends the loop through [throw]. *)
Lemma forAwait_tooMany tx pre coin post : forall s c w,
  Forall unconfirmed pre ->
  c + Z.of_nat (List.length pre) = 50 ->
  unconfirmed coin ->
  forAwait tx (pre ++ coin :: post) s c w
  = (Rejected (tooManyDecendents tx), emits (map Yielded (pre ++ [coin])) w).
Proof.
  induction pre as [|p pre IH]; intros s c w Hu Hc Hcoin.
  - apply confirmed_false in Hcoin. unfold confirmed in Hcoin.
    cbn [app forAwait]. unfold bind at 1. rewrite Hcoin.
    cbn [List.length] in Hc.
    destruct (Z.gtb_spec (c + 1) 50) as [E|E]; [reflexivity|lia].
  - inversion Hu as [|? ? Hp Hrest]; subst.
    apply confirmed_false in Hp. unfold confirmed in Hp.
    cbn [app forAwait]. unfold bind at 1. rewrite Hp.
    cbn [List.length] in Hc. rewrite Nat2Z.inj_succ in Hc.
    destruct (Z.gtb_spec (c + 1) 50) as [E|E]; [lia|].
    rewrite IH by (assumption || lia). reflexivity.
Qed.

(** Every run of the loop is one of the three above. *)
Lemma closure_cases ys : forall c,
  c <= 50 ->
  (Forall unconfirmed ys /\ c + Z.of_nat (List.length ys) <= 50)
  \/ (exists pre coin post,
        ys = (pre ++ coin :: post)%list /\ Forall unconfirmed pre
        /\ c + Z.of_nat (List.length pre) <= 50 /\ confirmed coin = true)
  \/ (exists pre coin post,
        ys = (pre ++ coin :: post)%list /\ Forall unconfirmed pre
        /\ c + Z.of_nat (List.length pre) = 50 /\ unconfirmed coin).
Proof.
  induction ys as [|y ys IH]; intros c Hc.
  - left. split; [constructor | simpl; lia].
  - destruct (confirmed y) eqn:Ey.
    { right; left. exists [], y, ys.
      split; [reflexivity|]. split; [constructor|]. split; [simpl; lia|assumption]. }
    apply confirmed_false in Ey.
    destruct (Z.eq_dec c 50) as [->|Hne].
    { right; right. exists [], y, ys.
      split; [reflexivity|]. split; [constructor|]. split; [reflexivity|assumption]. }
    destruct (IH (c + 1)) as [(Hu & Hl)|[(pre & coin & post & -> & Hu & Hl & Hk)
                                        |(pre & coin & post & -> & Hu & Hl & Hk)]];
      [lia| | |].
    + left. split; [now constructor|].
      cbn [List.length]. rewrite Nat2Z.inj_succ. lia.
    + right; left. exists (y :: pre), coin, post.
      cbn [List.length]. rewrite Nat2Z.inj_succ.
      split; [reflexivity|]. split; [now constructor|]. split; [lia|assumption].
    + right; right. exists (y :: pre), coin, post.
      cbn [List.length]. rewrite Nat2Z.inj_succ.
      split; [reflexivity|]. split; [now constructor|]. split; [lia|assumption].
Qed.

Section Transforms.

Variable env : Env.

(** What a transform does with the loop's outcome, once it is past the
    [stopping] test. *)
Lemma transformOld_loop chain network tx w :
  stopping w = false ->
  transformOld env chain network tx w
  = match forAwait tx
            (yieldRelatedOutputs env (transactions w) (coins w) (txid tx))
            [] 0 (emits (walk "Finding " tx []) w) with
    | (Resolved (inl err), w') => (Resolved (Some err), w')
    | (Resolved (inr (spentTxids, count)), w') =>
        (removeOldMempool env chain network (Set_add (txid tx) spentTxids) ;;;
         logger_info ("Removed " ++ txid tx ++ " transaction and "
                      ++ show count ++ " dependent txs") ;;;
         ret None) w'
    | (Rejected err, w') => (Rejected err, w')
    | (Pending, w') => (Pending, w')
    end.
Proof.
  intros Hs. unfold transformOld. rewrite Hs.
  unfold bind at 1. unfold logger_info at 1.
  unfold bind at 1. unfold relatedOutputs.
  cbn [transactions coins emit walk emits fold_left map].
  destruct (forAwait tx _ [] 0 _) as [[[err|[spentTxids count]]|err|] w'];
    reflexivity.
Qed.

Lemma transformInvalid_loop tx w :
  stopping w = false ->
  transformInvalid env tx w
  = match forAwait tx
            (yieldRelatedOutputs env (transactions w) (coins w) (txid tx))
            [] 0 (emits (walk "Invalidating " tx []) w) with
    | (Resolved (inl err), w') => (Resolved (Some err), w')
    | (Resolved (inr (spentTxids, count)), w') =>
        (clearInvalid env (Set_add (txid tx) spentTxids) ;;;
         logger_info ("Invalidated " ++ txid tx ++ " and "
                      ++ show count ++ " dependent txs") ;;;
         ret None) w'
    | (Rejected err, w') => (Rejected err, w')
    | (Pending, w') => (Pending, w')
    end.
Proof.
  intros Hs. unfold transformInvalid. rewrite Hs.
  unfold bind at 1. unfold logger_info at 1.
  unfold bind at 1. unfold relatedOutputs.
  cbn [transactions coins emit walk emits fold_left map].
  destruct (forAwait tx _ [] 0 _) as [[[err|[spentTxids count]]|err|] w'];
    reflexivity.
Qed.

Lemma walk_emits finding tx ys w :
  emits (map Yielded ys) (emits (walk finding tx []) w)
  = emits (walk finding tx ys) w.
Proof. reflexivity. Qed.

(** C1.  A seed whose traversal yields at most 50 coins, all with
    negative mint and spent heights: the array handed to the cascade has
    no duplicates and holds exactly the seed's txid and the [spentTxid]
    of every yielded coin that has one.  Both transforms call their
    cascade ([removeOldMempool], [clearInvalid]) on that array, right
    after the last coin was read. *)
Theorem affected_set_is_seed_and_spenders :
  forall chain network tx w,
    stopping w = false ->
    let yielded := yieldRelatedOutputs env (transactions w) (coins w) (txid tx) in
    Z.of_nat (List.length yielded) <= 50 ->
    Forall unconfirmed yielded ->
    exists uniqueTxids,
      NoDup uniqueTxids
      /\ (forall x, In x uniqueTxids
                    <-> x = txid tx \/ exists coin, In coin yielded /\ spentBy coin x)
      /\ transformOld env chain network tx w
         = (removeOldMempool env chain network uniqueTxids ;;;
            logger_info ("Removed " ++ txid tx ++ " transaction and "
                         ++ show (Z.of_nat (List.length yielded))
                         ++ " dependent txs") ;;;
            ret None) (emits (walk "Finding " tx yielded) w)
      /\ transformInvalid env tx w
         = (clearInvalid env uniqueTxids ;;;
            logger_info ("Invalidated " ++ txid tx ++ " and "
                         ++ show (Z.of_nat (List.length yielded))
                         ++ " dependent txs") ;;;
            ret None) (emits (walk "Invalidating " tx yielded) w).
Proof.
  intros chain network tx w Hs yielded Hlen Hu.
  exists (Array_from (Set_add (txid tx) (fold_left addSpent yielded []))).
  unfold Array_from. split; [|split; [|split]].
  - apply Set_add_NoDup, spenders_NoDup. constructor.
  - intros x. rewrite Set_add_In, spenders_In. simpl. tauto.
  - rewrite (transformOld_loop chain network tx w Hs). fold yielded.
    rewrite forAwait_completed by (assumption || lia).
    rewrite walk_emits. reflexivity.
  - rewrite (transformInvalid_loop tx w Hs). fold yielded.
    rewrite forAwait_completed by (assumption || lia).
    rewrite walk_emits. reflexivity.
Qed.


(** *** The cascades, call by call *)

Lemma removeOldMempool_dry chain network txids w :
  DRY (args env) = true ->
  removeOldMempool env chain network txids w
  = (Resolved tt,
     emit (Logger_info ("DRY RUN - Removing "
                        ++ show (Z.of_nat (List.length txids)) ++ " txids")) w).
Proof. intros H. unfold removeOldMempool. rewrite H. reflexivity. Qed.

Lemma clearInvalid_dry invalidTxids w :
  DRY (args env) = true ->
  clearInvalid env invalidTxids w
  = (Resolved tt,
     emit (Logger_info ("DRY RUN - Invalidating "
                        ++ show (Z.of_nat (List.length invalidTxids)) ++ " txids")) w).
Proof. intros H. unfold clearInvalid. rewrite H. reflexivity. Qed.

(** A cascade resolves, and none of its calls reads the generator. *)
Lemma removeOldMempool_resolves chain network txids w :
  exists w' evs,
    removeOldMempool env chain network txids w = (Resolved tt, w')
    /\ trace w' = (trace w ++ evs)%list
    /\ filter isYielded evs = [].
Proof.
  unfold removeOldMempool. destruct (DRY (args env));
    eexists; eexists; (split; [reflexivity|]); cbn.
  - split; [reflexivity|reflexivity].
  - rewrite <- !app_assoc. split; reflexivity.
Qed.

Lemma clearInvalid_resolves invalidTxids w :
  exists w' evs,
    clearInvalid env invalidTxids w = (Resolved tt, w')
    /\ trace w' = (trace w ++ evs)%list
    /\ filter isYielded evs = [].
Proof.
  unfold clearInvalid. destruct (DRY (args env));
    eexists; eexists; (split; [reflexivity|]); cbn.
  - split; [reflexivity|reflexivity].
  - rewrite <- !app_assoc. split; reflexivity.
Qed.

Lemma In_Yielded_walk finding tx ys coin :
  In (Yielded coin) (walk finding tx ys) <-> In coin ys.
Proof.
  unfold walk. simpl. rewrite in_map_iff. split.
  - intros [H|[H|(c & E & H)]]; try discriminate. now inversion E; subst.
  - intros H. right; right. now exists coin.
Qed.

Lemma In_Yielded_filter coin evs :
  In (Yielded coin) evs -> filter isYielded evs <> [].
Proof.
  intros H E. assert (In (Yielded coin) (filter isYielded evs)) as H1
    by (apply filter_In; split; [assumption|reflexivity]).
  rewrite E in H1. destruct H1.
Qed.

Lemma firstn_prefix {A : Type} (pre : list A) x post :
  firstn (S (List.length pre)) (pre ++ x :: post) = (pre ++ [x])%list.
Proof.
  induction pre as [|a pre IH]; [reflexivity|].
  change (a :: firstn (S (List.length pre)) (pre ++ x :: post)
          = a :: (pre ++ [x])%list).
  now rewrite IH.
Qed.

Lemma stoppedInWalk_emits finding tx pre x post w evs :
  trace (emits (walk finding tx (pre ++ [x])) w) = (trace w ++ evs)%list ->
  evs = walk finding tx (pre ++ [x])
  /\ stoppedInWalk finding tx (pre ++ x :: post) w
       (emits (walk finding tx (pre ++ [x])) w) evs.
Proof.
  rewrite trace_emits. intros E. apply app_inv_head in E. subst evs.
  split; [reflexivity|]. split; [|split; [apply mutationsOf_walk|]].
  - exists (S (List.length pre)). now rewrite firstn_prefix.
  - destruct (emits_frame (walk finding tx (pre ++ [x])) w) as (-> & -> & _).
    now split.
Qed.

(** A candidate whose trace holds a confirmed coin stopped at that
    coin, whatever it would have done after the loop. *)
Lemma confirmed_coin_in_walk finding tx ys
    (finish : list string -> Z -> Async (option Error)) w r w' evs coin :
  (forall s count w0, exists evs0,
      trace (snd (finish s count w0)) = (trace w0 ++ evs0)%list
      /\ filter isYielded evs0 = []) ->
  match forAwait tx ys [] 0 (emits (walk finding tx []) w) with
  | (Resolved (inl err), w') => (Resolved (Some err), w')
  | (Resolved (inr (spentTxids, count)), w') => finish spentTxids count w'
  | (Rejected err, w') => (Rejected err, w')
  | (Pending, w') => (Pending, w')
  end = (r, w') ->
  confirmed coin = true ->
  trace w' = (trace w ++ evs)%list ->
  In (Yielded coin) evs ->
  r = Resolved (Some (invalidCoin coin)) /\ stoppedInWalk finding tx ys w w' evs.
Proof.
  intros Hfinish E Hcoin Ht Hin.
  assert (Hnot : forall l, Forall unconfirmed l -> ~ In coin l).
  { intros l Hu Hl. rewrite Forall_forall in Hu.
    apply Hu, confirmed_false in Hl. congruence. }
  destruct (closure_cases ys 0) as
    [(Hu & Hl)|[(pre & x & post & -> & Hu & Hl & Hx)
               |(pre & x & post & -> & Hu & Hl & Hx)]]; [lia| | |].
  - exfalso. rewrite forAwait_completed, walk_emits in E by assumption.
    destruct (Hfinish (fold_left addSpent ys []) (0 + Z.of_nat (List.length ys))
                (emits (walk finding tx ys) w)) as (evs0 & T0 & Y0).
    rewrite E in T0. cbn [snd] in T0.
    rewrite Ht, trace_emits, <- app_assoc in T0.
    apply app_inv_head in T0. subst evs.
    apply in_app_iff in Hin. destruct Hin as [Hin|Hin].
    + apply In_Yielded_walk in Hin. now apply (Hnot ys).
    + now apply In_Yielded_filter in Hin.
  - rewrite forAwait_invalid, walk_emits in E by assumption.
    inversion E; subst r w'. clear E.
    destruct (stoppedInWalk_emits finding tx pre x post w evs Ht) as (-> & Hshape).
    apply In_Yielded_walk, in_app_iff in Hin.
    destruct Hin as [Hin|[->|[]]]; [now apply Hnot in Hin|].
    now split.
  - exfalso. rewrite forAwait_tooMany, walk_emits in E by assumption.
    inversion E; subst r w'. clear E.
    destruct (stoppedInWalk_emits finding tx pre x post w evs Ht) as (-> & _).
    apply In_Yielded_walk in Hin. revert Hin. apply Hnot.
    apply Forall_app. split; [assumption|now constructor].
Qed.

Lemma not_reached_when_stopping (w w' : World) (evs : list Event) coin :
  trace w' = (trace w ++ evs)%list -> w = w' -> ~ In (Yielded coin) evs.
Proof.
  intros Ht <-. rewrite <- (app_nil_r (trace w)) in Ht at 1.
  apply app_inv_head in Ht. subst evs. intros [].
Qed.

(** C2.  A candidate that reads a coin with a non-negative mint or spent
    height from the generator ends with [cb(new Error('Invalid coin!
    ...'))] for that coin.  All it did was log its first line, open the
    generator and read coins: no collection was changed and neither
    cascade was entered. *)
Theorem confirmed_coin_aborts_candidate :
  forall chain network tx w coin,
    confirmed coin = true ->
    let yielded := yieldRelatedOutputs env (transactions w) (coins w) (txid tx) in
    (forall r w' evs,
        transformOld env chain network tx w = (r, w') ->
        trace w' = (trace w ++ evs)%list ->
        In (Yielded coin) evs ->
        r = Resolved (Some (invalidCoin coin))
        /\ stoppedInWalk "Finding " tx yielded w w' evs)
    /\ (forall r w' evs,
        transformInvalid env tx w = (r, w') ->
        trace w' = (trace w ++ evs)%list ->
        In (Yielded coin) evs ->
        r = Resolved (Some (invalidCoin coin))
        /\ stoppedInWalk "Invalidating " tx yielded w w' evs).
Proof.
  intros chain network tx w coin Hcoin yielded.
  destruct (stopping w) eqn:Hs.
  { split; intros r w' evs E Ht Hin; exfalso;
      [unfold transformOld in E | unfold transformInvalid in E];
      rewrite Hs in E; inversion E; subst;
      now apply (not_reached_when_stopping w' w' evs coin Ht). }
  split; intros r w' evs E Ht Hin.
  - rewrite (transformOld_loop chain network tx w Hs) in E.
    refine (confirmed_coin_in_walk "Finding " tx yielded _ w r w' evs coin
              _ E Hcoin Ht Hin).
    intros s count w0. unfold bind at 1.
    destruct (removeOldMempool_resolves chain network (Set_add (txid tx) s) w0)
      as (w1 & evs1 & -> & T1 & Y1).
    eexists. cbn. rewrite T1, <- app_assoc. split; [reflexivity|].
    rewrite filter_app, Y1. reflexivity.
  - rewrite (transformInvalid_loop tx w Hs) in E.
    refine (confirmed_coin_in_walk "Invalidating " tx yielded _ w r w' evs coin
              _ E Hcoin Ht Hin).
    intros s count w0. unfold bind at 1.
    destruct (clearInvalid_resolves (Set_add (txid tx) s) w0)
      as (w1 & evs1 & -> & T1 & Y1).
    eexists. cbn. rewrite T1, <- app_assoc. split; [reflexivity|].
    rewrite filter_app, Y1. reflexivity.
Qed.

End Transforms.

Section Ceiling.

Variable env : Env.

Lemma split_at {A : Type} (n : nat) : forall l : list A,
  (n < List.length l)%nat ->
  exists pre x post, l = (pre ++ x :: post)%list /\ List.length pre = n.
Proof.
  induction n as [|n IH]; intros [|a l] H; simpl in H; try lia.
  - now exists [], a, l.
  - destruct (IH l) as (pre & x & post & -> & Hl); [lia|].
    exists (a :: pre), x, post. simpl. now rewrite Hl.
Qed.

(** C3, as the code has it.  When the traversal offers more than 50
    coins and the first 51 all have negative heights, the candidate ends
    in [throw new Error('... has too many decendents')] on reading the
    51st coin; it has logged its first line, opened the generator and
    read those 51 coins, and changed nothing.  So a closure with 51
    distinct unconfirmed descendant coins is refused. *)
Theorem too_many_unconfirmed_coins_abort_candidate :
  forall chain network tx w,
    stopping w = false ->
    let yielded := yieldRelatedOutputs env (transactions w) (coins w) (txid tx) in
    (50 < List.length yielded)%nat ->
    Forall unconfirmed (firstn 51 yielded) ->
    (exists w',
        transformOld env chain network tx w = (Rejected (tooManyDecendents tx), w')
        /\ trace w' = (trace w ++ walk "Finding " tx (firstn 51 yielded))%list
        /\ stoppedInWalk "Finding " tx yielded w w'
             (walk "Finding " tx (firstn 51 yielded)))
    /\ (exists w',
        transformInvalid env tx w = (Rejected (tooManyDecendents tx), w')
        /\ trace w' = (trace w ++ walk "Invalidating " tx (firstn 51 yielded))%list
        /\ stoppedInWalk "Invalidating " tx yielded w w'
             (walk "Invalidating " tx (firstn 51 yielded))).
Proof.
  intros chain network tx w Hs yielded Hlen Hu.
  destruct (split_at 50 yielded Hlen) as (pre & x & post & Ey & Hpre).
  assert (E51 : firstn 51 yielded = (pre ++ [x])%list)
    by (rewrite Ey, <- Hpre; apply firstn_prefix).
  rewrite E51 in Hu |- *. apply Forall_app in Hu. destruct Hu as [Hu Hx].
  inversion Hx as [|? ? Hx' _]; subst.
  split.
  - exists (emits (walk "Finding " tx (pre ++ [x])) w).
    rewrite (transformOld_loop env chain network tx w Hs). fold yielded.
    rewrite Ey, forAwait_tooMany, walk_emits by (assumption || lia).
    split; [reflexivity|]. split; [apply trace_emits|].
    apply (stoppedInWalk_emits "Finding " tx pre x post w). apply trace_emits.
  - exists (emits (walk "Invalidating " tx (pre ++ [x])) w).
    rewrite (transformInvalid_loop env tx w Hs). fold yielded.
    rewrite Ey, forAwait_tooMany, walk_emits by (assumption || lia).
    split; [reflexivity|]. split; [apply trace_emits|].
    apply (stoppedInWalk_emits "Invalidating " tx pre x post w). apply trace_emits.
Qed.

Lemma nth_error_prefix {A : Type} (pre : list A) x post k y :
  (k <= List.length pre)%nat ->
  nth_error (pre ++ x :: post) k = Some y ->
  In y (pre ++ [x]).
Proof.
  intros Hk E. apply in_app_iff.
  destruct (Nat.eq_dec k (List.length pre)) as [->|Hne].
  - rewrite nth_error_app2, Nat.sub_diag in E by lia. simpl in E.
    inversion E. right. now left.
  - rewrite nth_error_app1 in E by lia. left. eapply nth_error_In, E.
Qed.

(** C10.  The height test of lines 125/173 comes before the counter of
    lines 128-129/176-177.  When one of the first 51 coins of the
    traversal has a non-negative mint or spent height, the candidate ends
    with the 'Invalid coin!' error of a coin with such a height, given to
    [cb]; it does not end with the 'too many decendents' error. *)
Theorem height_check_precedes_ceiling :
  forall chain network tx w k coin,
    stopping w = false ->
    let yielded := yieldRelatedOutputs env (transactions w) (coins w) (txid tx) in
    (k < 51)%nat ->
    nth_error yielded k = Some coin ->
    confirmed coin = true ->
    exists first,
      In first yielded /\ confirmed first = true
      /\ fst (transformOld env chain network tx w)
         = Resolved (Some (invalidCoin first))
      /\ fst (transformInvalid env tx w)
         = Resolved (Some (invalidCoin first))
      /\ fst (transformOld env chain network tx w)
         <> Rejected (tooManyDecendents tx)
      /\ fst (transformInvalid env tx w)
         <> Rejected (tooManyDecendents tx).
Proof.
  intros chain network tx w k coin Hs yielded Hk Hnth Hcoin.
  assert (Hnot : forall ys, Forall unconfirmed ys -> ~ In coin ys).
  { intros ys Hu Hin. rewrite Forall_forall in Hu.
    apply Hu, confirmed_false in Hin. congruence. }
  destruct (closure_cases yielded 0) as
    [(Hu & Hl)|[(pre & x & post & Ey & Hu & Hl & Hx)
               |(pre & x & post & Ey & Hu & Hl & Hx)]]; [lia| | |].
  - exfalso. apply (Hnot yielded Hu). eapply nth_error_In, Hnth.
  - exists x.
    rewrite (transformOld_loop env chain network tx w Hs).
    rewrite (transformInvalid_loop env tx w Hs). fold yielded.
    rewrite Ey, !forAwait_invalid by assumption. cbn [fst].
    split; [apply in_app_iff; right; now left|].
    split; [assumption|].
    repeat split; discriminate.
  - exfalso. apply (Hnot (pre ++ [x])%list).
    + apply Forall_app. split; [assumption|now constructor].
    + rewrite Ey in Hnth. apply (nth_error_prefix pre x post k); [lia|assumption].
Qed.

End Ceiling.

(** ** The cascade executor *)

Section Cascades.

Variable env : Env.

(** C4.  With the dry-run flag set, [removeOldMempool] and
    [clearInvalid] log one line that carries the size of the affected
    set and return: for every affected set, no call reaches a
    collection, and both collections are what they were. *)
Theorem dry_run_cascades_only_log :
  DRY (args env) = true ->
  forall chain network txids w,
    (exists w',
        removeOldMempool env chain network txids w = (Resolved tt, w')
        /\ trace w'
           = (trace w ++ [Logger_info ("DRY RUN - Removing "
                            ++ show (Z.of_nat (List.length txids)) ++ " txids")])%list
        /\ transactions w' = transactions w /\ coins w' = coins w)
    /\ (exists w',
        clearInvalid env txids w = (Resolved tt, w')
        /\ trace w'
           = (trace w ++ [Logger_info ("DRY RUN - Invalidating "
                            ++ show (Z.of_nat (List.length txids)) ++ " txids")])%list
        /\ transactions w' = transactions w /\ coins w' = coins w).
Proof.
  intros Hdry chain network txids w. split; eexists.
  - rewrite removeOldMempool_dry by assumption. repeat split.
  - rewrite clearInvalid_dry by assumption. repeat split.
Qed.

(** *** The three updates of [clearInvalid] *)

Lemma invalidate_tx invalidTxids t :
  (if matchesTx {| q_chain := None; q_network := None;
                   q_txid_in := Some invalidTxids; q_blockHeight := None;
                   q_blockTimeNormalized_lt := None |} t
   then applyTxSet {| set_blockHeight := Some (conflicting (indicators env)) |} t
   else t)
  = invalidatedTx env invalidTxids t.
Proof.
  unfold matchesTx, invalidatedTx, holds. cbn.
  rewrite !andb_true_r. reflexivity.
Qed.

Lemma unmint_unspend invalidTxids c :
  unmint env invalidTxids (unspend env invalidTxids c) = invalidatedCoin env invalidTxids c.
Proof.
  unfold unmint, unspend, invalidatedCoin, spentByOneOf, matchesCoin, holds, mkCoin.
  destruct c as [cc cn mt mi mh [s|] sh];
    [destruct (Set_has s invalidTxids) eqn:Es|];
    destruct (Set_has mt invalidTxids) eqn:Em;
    cbn; rewrite ?Es, ?Em; cbn; rewrite ?Es, ?Em; reflexivity.
Qed.

Lemma unspend_unmint invalidTxids c :
  unspend env invalidTxids (unmint env invalidTxids c) = invalidatedCoin env invalidTxids c.
Proof.
  unfold unmint, unspend, invalidatedCoin, spentByOneOf, matchesCoin, holds, mkCoin.
  destruct c as [cc cn mt mi mh [s|] sh];
    [destruct (Set_has s invalidTxids) eqn:Es|];
    destruct (Set_has mt invalidTxids) eqn:Em;
    cbn; rewrite ?Es, ?Em; cbn; rewrite ?Es, ?Em; reflexivity.
Qed.

Lemma perm3 {A : Type} (a b c x y z : A) :
  Permutation [a; b; c] [x; y; z] ->
  [a; b; c] = [x; y; z] \/ [a; b; c] = [x; z; y]
  \/ [a; b; c] = [y; x; z] \/ [a; b; c] = [y; z; x]
  \/ [a; b; c] = [z; x; y] \/ [a; b; c] = [z; y; x].
Proof.
  intros P.
  assert (In a [x; y; z]) as Ha by (eapply Permutation_in; [exact P|now left]).
  destruct Ha as [<-|[<-|[<-|[]]]].
  - apply Permutation_cons_inv, Permutation_length_2_inv in P.
    destruct P as [E|E]; inversion E; subst; auto.
  - apply (Permutation_cons_app_inv [x] [z]), Permutation_length_2_inv in P.
    destruct P as [E|E]; inversion E; subst; auto 7.
  - apply (Permutation_cons_app_inv [x; y] []), Permutation_length_2_inv in P.
    destruct P as [E|E]; inversion E; subst; auto 7.
Qed.

(** The collections after the three updates, in any order. *)
Lemma invalidations_any_order invalidTxids ops w :
  Permutation ops (invalidations env invalidTxids) ->
  transactions (snd (Promise_all ops w))
  = map (invalidatedTx env invalidTxids) (transactions w)
  /\ coins (snd (Promise_all ops w))
     = map (invalidatedCoin env invalidTxids) (coins w).
Proof.
  intros P. unfold invalidations in P.
  assert (List.length ops = 3%nat) as Hl by (now rewrite (Permutation_length P)).
  destruct ops as [|a [|b [|c [|d ops]]]]; try discriminate Hl.
  pose proof (map_ext _ _ (invalidate_tx invalidTxids)) as Et.
  pose proof (map_ext _ _ (unmint_unspend invalidTxids)) as E1.
  pose proof (map_ext _ _ (unspend_unmint invalidTxids)) as E2.
  unfold unmint, unspend in E1, E2.
  apply perm3 in P.
  destruct P as [P|[P|[P|[P|[P|P]]]]]; inversion P; subst a b c; cbn;
    rewrite ?map_map; split; auto.
Qed.

(** C5.  Outside dry-run, [clearInvalid] issues exactly three calls that
    change a collection, all three update-many calls handed to one
    [Promise.all].  After them every transaction whose txid is in the
    set has the conflicting height, every coin whose [spentTxid] is in
    the set has the unspent spent-height, every coin whose [mintTxid] is
    in the set has the conflicting mint-height, and every other field of
    every record is what it was.  The three calls may take effect in any
    order: each of the six orders leaves the same two collections. *)
Theorem clearInvalid_three_updates :
  DRY (args env) = false ->
  forall invalidTxids w,
    exists w' evs,
      clearInvalid env invalidTxids w = (Resolved tt, w')
      /\ trace w' = (trace w ++ evs)%list
      /\ List.length (mutationsOf evs) = 3%nat
      /\ transactions w' = map (invalidatedTx env invalidTxids) (transactions w)
      /\ coins w' = map (invalidatedCoin env invalidTxids) (coins w)
      /\ forall ops,
           Permutation ops (invalidations env invalidTxids) ->
           transactions (snd (Promise_all ops w)) = transactions w'
           /\ coins (snd (Promise_all ops w)) = coins w'.
Proof.
  intros Hdry invalidTxids w.
  pose (w1 := emit (Logger_info ("Invalidating "
                ++ show (Z.of_nat (List.length invalidTxids)) ++ " txids")) w).
  destruct (invalidations_any_order invalidTxids _ w1 (Permutation_refl _))
    as (Ht & Hc).
  exists (snd (Promise_all (invalidations env invalidTxids) w1)). eexists.
  split; [unfold clearInvalid; rewrite Hdry; reflexivity|].
  split; [cbn; rewrite <- !app_assoc; reflexivity|].
  split; [reflexivity|].
  split; [exact Ht|]. split; [exact Hc|].
  intros ops P. rewrite Ht, Hc.
  apply (invalidations_any_order invalidTxids ops w P).
Qed.

End Cascades.

(** ** What a run leaves alone *)

Section Preserved.

Variable R : World -> World -> Prop.
Hypothesis R_refl : forall w, R w w.
Hypothesis R_trans : forall a b c, R a b -> R b c -> R a c.
Hypothesis R_emit : forall e w, isMutation e = false -> R w (emit e w).

Lemma preserves_ret {A : Type} (a : A) : preserves R (ret a).
Proof. intros w. apply R_refl. Qed.

Lemma preserves_throw {A : Type} err : preserves R (@throw A err).
Proof. intros w. apply R_refl. Qed.

Lemma preserves_bind {A B : Type} (m : Async A) (k : A -> Async B) :
  preserves R m -> (forall a, preserves R (k a)) -> preserves R (bind m k).
Proof.
  intros Hm Hk w. unfold bind. specialize (Hm w).
  destruct (m w) as [[a|err|] w']; cbn in *; [|assumption..].
  eapply R_trans; [exact Hm | apply Hk].
Qed.

Lemma preserves_when cond action :
  preserves R action -> preserves R (when cond action).
Proof. intros H. destruct cond; [exact H | apply preserves_ret]. Qed.

Lemma preserves_logger_info msg : preserves R (logger_info msg).
Proof. intros w. now apply R_emit. Qed.

Lemma preserves_countDocuments q : preserves R (countDocuments q).
Proof. intros w. now apply R_emit. Qed.

Lemma preserves_find q : preserves R (find q).
Proof. intros w. now apply R_emit. Qed.

Lemma preserves_Date_now : preserves R Date_now.
Proof. intros w. apply R_refl. Qed.

Lemma preserves_Promise_all ps :
  Forall (preserves R) ps -> preserves R (Promise_all ps).
Proof.
  induction 1 as [|p ps Hp _ IH]; cbn [Promise_all].
  - apply preserves_ret.
  - apply preserves_bind; auto.
Qed.

Lemma preserves_forAwait tx ys : forall s c, preserves R (forAwait tx ys s c).
Proof.
  induction ys as [|coin ys IH]; intros s c; cbn [forAwait].
  - apply preserves_ret.
  - apply preserves_bind; [intros w; now apply R_emit|]. intros _.
    destruct (_ || _); [apply preserves_ret|].
    destruct (_ >? _); [apply preserves_throw | apply IH].
Qed.

Lemma preserves_pipe transform cursor :
  (forall data, preserves R (transform data)) ->
  preserves R (pipe transform cursor).
Proof.
  intros Ht. induction cursor as [|data rest IH]; cbn [pipe].
  - apply preserves_ret.
  - intros w. specialize (Ht data w).
    destruct (transform data w) as [[[err|]|err|] w']; cbn in *; try assumption.
    eapply R_trans; [exact Ht | apply IH].
Qed.

Variable env : Env.

Lemma preserves_relatedOutputs tx : preserves R (relatedOutputs env tx).
Proof.
  intros w. unfold relatedOutputs.
  eapply R_trans; [apply (R_emit (Tx_yieldRelatedOutputs (txid tx))); reflexivity|].
  apply preserves_forAwait.
Qed.

Hypothesis R_removeOldMempool : forall chain network txids,
  preserves R (removeOldMempool env chain network txids).
Hypothesis R_clearInvalid : forall invalidTxids,
  preserves R (clearInvalid env invalidTxids).

Lemma preserves_transformOld chain network tx :
  preserves R (transformOld env chain network tx).
Proof.
  intros w. unfold transformOld. destruct (stopping w); [apply R_refl|].
  revert w. apply preserves_bind; [apply preserves_logger_info|]. intros _.
  apply preserves_bind; [apply preserves_relatedOutputs|].
  intros [err|[spentTxids count]]; [apply preserves_ret|].
  apply preserves_bind; [apply R_removeOldMempool|]. intros _.
  apply preserves_bind; [apply preserves_logger_info|]. intros _.
  apply preserves_ret.
Qed.

Lemma preserves_transformInvalid tx : preserves R (transformInvalid env tx).
Proof.
  intros w. unfold transformInvalid. destruct (stopping w); [apply R_refl|].
  revert w. apply preserves_bind; [apply preserves_logger_info|]. intros _.
  apply preserves_bind; [apply preserves_relatedOutputs|].
  intros [err|[spentTxids count]]; [apply preserves_ret|].
  apply preserves_bind; [apply R_clearInvalid|]. intros _.
  apply preserves_bind; [apply preserves_logger_info|]. intros _.
  apply preserves_ret.
Qed.

Lemma preserves_processOldMempoolTxs chain network days :
  preserves R (processOldMempoolTxs env chain network days).
Proof.
  unfold processOldMempoolTxs.
  apply preserves_bind; [apply preserves_Date_now|]. intros t.
  apply preserves_bind; [apply preserves_countDocuments|]. intros count.
  apply preserves_bind; [apply preserves_logger_info|]. intros _.
  apply preserves_bind; [apply preserves_find|]. intros cursor.
  apply preserves_bind; [|intros _; apply preserves_logger_info].
  apply preserves_pipe. intros data. apply preserves_transformOld.
Qed.

Lemma preserves_processAllInvalidTxs chain network :
  preserves R (processAllInvalidTxs env chain network).
Proof.
  unfold processAllInvalidTxs.
  apply preserves_bind; [apply preserves_countDocuments|]. intros count.
  apply preserves_bind; [apply preserves_logger_info|]. intros _.
  apply preserves_bind; [apply preserves_find|]. intros cursor.
  apply preserves_pipe. intros data. apply preserves_transformInvalid.
Qed.

Lemma preserves_forOf chainNetworks : preserves R (forOf env chainNetworks).
Proof.
  induction chainNetworks as [|pair rest IH]; cbn [forOf].
  - apply preserves_ret.
  - destruct (_ || _); [apply preserves_throw|].
    apply preserves_bind;
      [apply preserves_when, preserves_processOldMempoolTxs|]. intros _.
    apply preserves_bind;
      [apply preserves_when, preserves_processAllInvalidTxs|]. intros _.
    exact IH.
Qed.

Lemma preserves_detectAndClear_try : preserves R (detectAndClear_try env).
Proof.
  unfold detectAndClear_try. destruct (_ && _); [|apply preserves_forOf].
  apply preserves_bind;
    [apply preserves_when, preserves_processOldMempoolTxs|]. intros _.
  apply preserves_when, preserves_processAllInvalidTxs.
Qed.

End Preserved.

Lemma sameService_refl w : sameService w w.
Proof. now repeat split. Qed.

Lemma sameService_trans a b c : sameService a b -> sameService b c -> sameService a c.
Proof. intros (? & ? & ?) (? & ? & ?). repeat split; congruence. Qed.

Lemma sameService_emit e w : isMutation e = false -> sameService w (emit e w).
Proof. intros _. now repeat split. Qed.

Lemma sameService_removeOldMempool env chain network txids :
  preserves sameService (removeOldMempool env chain network txids).
Proof. intros w. unfold removeOldMempool. destruct (DRY (args env)); now repeat split. Qed.

Lemma sameService_clearInvalid env invalidTxids :
  preserves sameService (clearInvalid env invalidTxids).
Proof. intros w. unfold clearInvalid. destruct (DRY (args env)); now repeat split. Qed.

(** The [try] block never touches the latch, the stop flag or the clock. *)
Lemma detectAndClear_try_sameService env :
  preserves sameService (detectAndClear_try env).
Proof.
  apply preserves_detectAndClear_try;
    auto using sameService_refl, sameService_emit,
               sameService_removeOldMempool, sameService_clearInvalid.
  exact sameService_trans.
Qed.

Lemma sameStore_refl w : sameStore w w.
Proof. now repeat split. Qed.

Lemma sameStore_trans a b c : sameStore a b -> sameStore b c -> sameStore a c.
Proof. intros (? & ? & ?) (? & ? & ?). repeat split; congruence. Qed.

Lemma sameStore_emit e w : isMutation e = false -> sameStore w (emit e w).
Proof.
  intros H. repeat split. cbn. rewrite mutationsOf_app. cbn. rewrite H.
  apply app_nil_r.
Qed.

(** ** Scope of the cascades *)

Lemma filter_filter_imp {A : Type} (p q : A -> bool) l :
  (forall x, p x = true -> q x = true) ->
  filter p (filter q l) = filter p l.
Proof.
  intros H. induction l as [|a l IH]; cbn; [reflexivity|].
  destruct (q a) eqn:Eq; cbn.
  - now rewrite IH.
  - destruct (p a) eqn:Ep; [|assumption].
    apply H in Ep. congruence.
Qed.

(** [removeOldMempool] leaves the records of every other chain or
    network in place. *)
Lemma removeOldMempool_keeps_other_pairs env chain network txids w :
  let w' := snd (removeOldMempool env chain network txids w) in
  filter (fun t => negb (String.eqb (tx_chain t) chain
                         && String.eqb (tx_network t) network)) (transactions w')
  = filter (fun t => negb (String.eqb (tx_chain t) chain
                           && String.eqb (tx_network t) network)) (transactions w)
  /\ filter (fun c => negb (String.eqb (coin_chain c) chain
                            && String.eqb (coin_network c) network)) (coins w')
     = filter (fun c => negb (String.eqb (coin_chain c) chain
                              && String.eqb (coin_network c) network)) (coins w).
Proof.
  unfold removeOldMempool. destruct (DRY (args env)); cbn; [now split|].
  split; apply filter_filter_imp; intros x Hx.
  - unfold matchesTx, holds. cbn.
    destruct (String.eqb (tx_chain x) chain); [|reflexivity].
    destruct (String.eqb (tx_network x) network); [discriminate|reflexivity].
  - unfold matchesCoin, holds. cbn.
    destruct (String.eqb (coin_chain x) chain); [|reflexivity].
    destruct (String.eqb (coin_network x) network); [discriminate|reflexivity].
Qed.

(** C6.  [clearInvalid] filters its three updates by txid alone, with no
    chain and no network.  In the store [forked] the txid [T] is invalid
    on BTC and waits in the BCH mempool.  The invalid cascade for
    BTC/mainnet, alone or as part of a whole run configured for
    BTC/mainnet, gives the BCH transaction the conflicting height and the
    BCH coin the conflicting mint-height. *)
Theorem clearInvalid_reaches_other_chain :
  transactions forked
  = [ mkTx "BTC" "mainnet" "T" (-3) 0; mkTx "BCH" "mainnet" "T" (-1) 0 ]
  /\ transactions (snd (clearInvalid btc ["T"] forked))
     = [ mkTx "BTC" "mainnet" "T" (-3) 0; mkTx "BCH" "mainnet" "T" (-3) 0 ]
  /\ coins (snd (clearInvalid btc ["T"] forked))
     = [ mkCoin "BCH" "mainnet" "T" 0 (-3) None (-2) ]
  /\ transactions (snd (detectAndClear btc forked))
     = [ mkTx "BTC" "mainnet" "T" (-3) 0; mkTx "BCH" "mainnet" "T" (-3) 0 ]
  /\ coins (snd (detectAndClear btc forked))
     = [ mkCoin "BCH" "mainnet" "T" 0 (-3) None (-2) ].
Proof. vm_compute. repeat split. Qed.

(** ** The lifecycle controller *)

Lemma forOf_app env pre post w :
  forOf env (pre ++ post) w
  = match forOf env pre w with
    | (Resolved _, w') => forOf env post w'
    | (Rejected err, w') => (Rejected err, w')
    | (Pending, w') => (Pending, w')
    end.
Proof.
  revert w. induction pre as [|pair pre IH]; intros w; cbn [app forOf].
  - reflexivity.
  - destruct (_ || _); [reflexivity|].
    unfold bind.
    destruct (when (OLD (args env)) _ w) as [[[]|err|] w1]; try reflexivity.
    destruct (when (INVALID (args env)) _ w1) as [[[]|err|] w2]; try reflexivity.
    apply IH.
Qed.

(** C7, as the code has it.  One [try] encloses the whole loop over the
    pairs.  When the pairs before [pair] were processed and processing
    [pair] rejects, the rejection is caught and logged, the latch is
    released and the promise of [detectAndClear] resolves; the world is
    then the one the failure left, plus the error line: the pairs after
    [pair] are not processed in this run.  With the latch released a
    later trigger starts a new run.  In no case does the promise of
    [detectAndClear] reject. *)
Theorem pair_failure_is_caught_and_ends_run :
  forall env w,
    (forall err, fst (detectAndClear env w) <> Rejected err)
    /\ (forall pre pair post err w0 w1,
          running w = false ->
          truthy (CHAIN env) && truthy (NETWORK env) = false ->
          Config_chainNetworks env = (pre ++ pair :: post)%list ->
          forOf env pre (set_running true w) = (Resolved tt, w0) ->
          forOf env [pair] w0 = (Rejected err, w1) ->
          detectAndClear env w
          = (Resolved tt,
             set_running false
               (emit (Logger_error ("Pruning Error: " ++ stack err)) w1))
          /\ running (snd (detectAndClear env w)) = false).
Proof.
  intros env w. split.
  - intros err. unfold detectAndClear. destruct (running w); [discriminate|].
    destruct (detectAndClear_try env _) as [[[]|e|] w']; discriminate.
  - intros pre pair post err w0 w1 Hr Hc Hpairs Hpre Hpair.
    assert (E : detectAndClear_try env (set_running true w) = (Rejected err, w1)).
    { unfold detectAndClear_try. rewrite Hc, Hpairs.
      rewrite forOf_app, Hpre.
      change (pair :: post) with ([pair] ++ post)%list.
      now rewrite forOf_app, Hpair. }
    unfold detectAndClear. rewrite Hr, E. split; reflexivity.
Qed.

(** The run over [twoPairs]: BTC fails on its confirmed coin, and BCH,
    next in the list, is never asked about; its coin keeps the mint
    height that the invalid cascade for BCH would have changed. *)
Lemma later_pairs_are_skipped :
  Config_chainNetworks btcThenBch
  = [ {| chain := Some "BTC"; network := Some "mainnet" |};
      {| chain := Some "BCH"; network := Some "mainnet" |} ]
  /\ fst (detectAndClear btcThenBch twoPairs) = Resolved tt
  /\ In (Logger_error "Pruning Error: Error: Invalid coin! A ")
        (trace (snd (detectAndClear btcThenBch twoPairs)))
  /\ findChains (trace (snd (detectAndClear btcThenBch twoPairs)))
     = ["BTC"; "BTC"]
  /\ coins (snd (detectAndClear btcThenBch twoPairs)) = coins twoPairs
  /\ coins (snd (processAllInvalidTxs btcThenBch "BCH" "mainnet" twoPairs))
     <> coins twoPairs.
Proof.
  vm_compute. repeat split; try discriminate.
  do 12 (try (left; reflexivity); right).
Qed.

(** The store [fiftyThenConfirmed]: the traversal hands 51 coins to the
    loop, more than 50, and the 51st has mint height 100.  Both
    transforms end with the 'Invalid coin!' error given to [cb], not with
    the 'too many decendents' error. *)
Lemma confirmed_51st_coin_is_invalid_not_too_many :
  let old := transformOld btc "BTC" "mainnet" seedT fiftyThenConfirmed in
  let invalid := transformInvalid btc seedT fiftyThenConfirmed in
  List.length (filter isYielded (trace (snd old))) = 51%nat
  /\ fst old = Resolved (Some (invalidCoin (confirmedOutput 50)))
  /\ fst old <> Rejected (tooManyDecendents seedT)
  /\ List.length (filter isYielded (trace (snd invalid))) = 51%nat
  /\ fst invalid = Resolved (Some (invalidCoin (confirmedOutput 50)))
  /\ fst invalid <> Rejected (tooManyDecendents seedT).
Proof. vm_compute. repeat split; discriminate. Qed.

Lemma only_one_removed {A : Type} (l : list A) i r :
  (List.length l <= 1)%nat ->
  nth_error l i = Some r ->
  (firstn i l ++ skipn (S i) l)%list = [].
Proof.
  destruct l as [|a [|b l]]; cbn [List.length]; intros Hl Hn; [| |lia].
  - destruct i; discriminate.
  - destruct i as [|i]; [reflexivity|]. destruct i; discriminate.
Qed.

Lemma singleFlight_tick env s t : singleFlight s -> singleFlight (tick env s t).
Proof.
  intros (Hlen & Hlatch). destruct t as [|i]; cbn [tick].
  - destruct (running (world s)) eqn:Hr; [now split|].
    assert (inflight s = []) as Hnil.
    { destruct (inflight s) as [|r l]; [reflexivity|].
      assert (r :: l <> []) as H by discriminate.
      apply Hlatch in H. congruence. }
    pose proof (detectAndClear_try_sameService env (set_running true (world s)))
      as (_ & Hrun & _).
    destruct (detectAndClear_try env _) as [r w'].
    rewrite Hnil. split; [cbn; lia|]. intros _. exact Hrun.
  - destruct (nth_error (inflight s) i) as [r|] eqn:En; [|now split].
    assert (firstn i (inflight s) ++ skipn (S i) (inflight s) = [])%list as Hnil
      by (apply (only_one_removed _ i r); assumption).
    destruct r as [a|err|]; [| |now split];
      (split; cbn [inflight]; rewrite Hnil; [cbn; lia|intros H; now contradiction H]).
Qed.

Lemma singleFlight_ticks env ts : forall s,
  singleFlight s -> singleFlight (ticks env ts s).
Proof.
  induction ts as [|t ts IH]; intros s H; [exact H|].
  apply IH, singleFlight_tick, H.
Qed.

Lemma latch_set_after_trigger env w :
  running w = false -> running (world (tick env (idle w) Trigger)) = true.
Proof.
  intros Hr. cbn. rewrite Hr.
  pose proof (detectAndClear_try_sameService env (set_running true w))
    as (_ & Hrun & _).
  destruct (detectAndClear_try env _) as [r w']. exact Hrun.
Qed.

(** C8.  [detectAndClear] is single-flight.  A call that finds the latch
    set returns at once and leaves the world, trace included, as it was:
    no query, no mutation, and nothing kept for later (a trigger on a
    scheduler whose latch is set leaves the scheduler as it was, so two
    triggers in a row do what one does).  Whatever the sequence of
    triggers and completions, at most one run is in flight.  A run that
    completes, whether its [try] block resolved or rejected, resolves and
    leaves the latch released, and the next trigger gets past the
    latch. *)
Theorem detectAndClear_single_flight :
  forall env,
    (forall w, running w = true -> detectAndClear env w = (Resolved tt, w))
    /\ (forall s, running (world s) = true -> tick env s Trigger = s)
    /\ (forall w ts,
          running w = false ->
          ticks env (Trigger :: Trigger :: ts) (idle w)
          = ticks env (Trigger :: ts) (idle w))
    /\ (forall w ts, (List.length (inflight (ticks env ts (idle w))) <= 1)%nat)
    /\ (forall w r w',
          running w = false ->
          detectAndClear env w = (r, w') ->
          r <> Pending ->
          r = Resolved tt /\ running w' = false
          /\ List.length (inflight (tick env (idle w') Trigger)) = 1%nat).
Proof.
  intros env.
  assert (Hdropped : forall s, running (world s) = true -> tick env s Trigger = s)
    by (intros s Hr; cbn; now rewrite Hr).
  split; [|split; [|split; [|split]]].
  - intros w Hr. unfold detectAndClear. now rewrite Hr.
  - exact Hdropped.
  - intros w ts Hr. unfold ticks. cbn [fold_left].
    now rewrite (Hdropped _ (latch_set_after_trigger env w Hr)).
  - intros w ts. apply (singleFlight_ticks env ts (idle w)).
    split; [cbn; lia|]. intros H. now contradiction H.
  - intros w r w' Hr E Hp. unfold detectAndClear in E. rewrite Hr in E.
    destruct (detectAndClear_try env (set_running true w)) as [r0 w0].
    assert (r = Resolved tt /\ running w' = false) as (-> & Hw').
    { destruct r0 as [[]|err|]; cbn in E; inversion E; subst;
        [now split | now split | congruence]. }
    repeat split; [assumption|].
    cbn. rewrite Hw'.
    now destruct (detectAndClear_try env _).
Qed.

(** ** Old-mempool removal, run twice *)

Section Idempotence.

Variable env : Env.
Variables chain network : string.


Lemma removeOldMempool_wet txids w :
  DRY (args env) = false ->
  exists w',
    removeOldMempool env chain network txids w = (Resolved tt, w')
    /\ transactions w'
       = filter (fun t => negb (matchesTx (deleted chain network txids) t))
           (transactions w).
Proof.
  intros Hdry. unfold removeOldMempool. rewrite Hdry.
  eexists. split; reflexivity.
Qed.

(** A candidate whose transform called [cb()] had its cascade run, on a
    set that holds its own txid. *)
Lemma transformOld_done data w w' :
  DRY (args env) = false ->
  transformOld env chain network data w = (Resolved None, w') ->
  exists txids,
    In (txid data) txids
    /\ transactions w'
       = filter (fun t => negb (matchesTx (deleted chain network txids) t)) (transactions w).
Proof.
  intros Hdry E. destruct (stopping w) eqn:Hs.
  { unfold transformOld in E. rewrite Hs in E. discriminate E. }
  rewrite (transformOld_loop env chain network data w Hs) in E.
  destruct (closure_cases
              (yieldRelatedOutputs env (transactions w) (coins w) (txid data)) 0)
    as [(Hu & Hl)|[(pre & x & post & Ey & Hu & Hl & Hx)
                  |(pre & x & post & Ey & Hu & Hl & Hx)]]; [lia| | |].
  - rewrite forAwait_completed, walk_emits in E by assumption.
    unfold bind at 1 in E.
    destruct (removeOldMempool_wet
                (Set_add (txid data) (fold_left addSpent
                   (yieldRelatedOutputs env (transactions w) (coins w) (txid data)) []))
                (emits (walk "Finding " data
                   (yieldRelatedOutputs env (transactions w) (coins w) (txid data))) w)
                Hdry)
      as (w2 & E2 & Ht).
    rewrite E2 in E. inversion E; subst w'. clear E.
    eexists. split; [apply Set_add_In; now left|].
    cbn [transactions emit]. rewrite Ht.
    destruct (emits_frame (walk "Finding " data
                (yieldRelatedOutputs env (transactions w) (coins w) (txid data))) w)
      as (-> & _).
    reflexivity.
  - rewrite Ey, forAwait_invalid in E by assumption. discriminate E.
  - rewrite Ey, forAwait_tooMany in E by assumption. discriminate E.
Qed.

(** After a pipeline that finished, every candidate of the pair with the
    mempool height is gone, and no transaction was added. *)
Lemma pipe_transformOld_finished cursor : forall w w',
  DRY (args env) = false ->
  pipe (transformOld env chain network) cursor w = (Resolved tt, w') ->
  (forall t, In t (transactions w') -> In t (transactions w))
  /\ (forall t, In t cursor ->
                matchesTx (deleted chain network [txid t]) t = true ->
                ~ In t (transactions w')).
Proof.
  induction cursor as [|data rest IH]; intros w w' Hdry E; cbn [pipe] in E.
  - inversion E; subst. split; [auto|]. intros t [].
  - destruct (transformOld env chain network data w) as [[[err|]|err|] w1] eqn:Ed;
      try discriminate E.
    destruct (transformOld_done data w w1 Hdry Ed) as (txids & Hin & Ht).
    destruct (IH w1 w' Hdry E) as (Hsub & Hgone).
    assert (Hsub1 : forall t, In t (transactions w1) -> In t (transactions w)).
    { intros t H. rewrite Ht in H. now apply filter_In in H. }
    split; [auto|].
    intros t [ <- | Hrest] Hm; [|now apply Hgone].
    intros H. apply Hsub in H. rewrite Ht in H. apply filter_In in H.
    destruct H as [_ H]. apply negb_true_iff in H.
    revert Hm H. unfold matchesTx, deleted, holds. cbn.
    apply Set_has_In in Hin. rewrite Hin, String.eqb_refl. cbn.
    intros ->. discriminate.
Qed.

Lemma filter_nil {A : Type} (p : A -> bool) l :
  (forall x, In x l -> p x = false) -> filter p l = [].
Proof.
  induction l as [|a l IH]; intros H; cbn; [reflexivity|].
  rewrite (H a) by now left. apply IH. intros x Hx. apply H. now right.
Qed.



(** The cascade itself: a second [removeOldMempool] on the same set
    finds nothing left to delete. *)
Lemma removeOldMempool_twice txids w :
  let w1 := snd (removeOldMempool env chain network txids w) in
  let w2 := snd (removeOldMempool env chain network txids w1) in
  transactions w2 = transactions w1 /\ coins w2 = coins w1.
Proof.
  unfold removeOldMempool. destruct (DRY (args env)); cbn; [now split|].
  split.
  - induction (transactions w) as [|t l IH]; cbn; [reflexivity|].
    destruct (matchesTx _ t) eqn:Em; cbn; [assumption|].
    rewrite Em. cbn. now f_equal.
  - induction (coins w) as [|c l IH]; cbn; [reflexivity|].
    destruct (matchesCoin _ c) eqn:Em; cbn; [assumption|].
    rewrite Em. cbn. now f_equal.
Qed.

End Idempotence.

(** ** The properties on the sample stores *)

(** Scenario A: the affected set of [T] is [T2] and [T]. *)
Lemma affected_set_scenarioA :
  exists uniqueTxids,
    NoDup uniqueTxids
    /\ (forall x, In x uniqueTxids <-> x = "T" \/ x = "T2")
    /\ transformOld btc "BTC" "mainnet" seedT scenarioA
       = (removeOldMempool btc "BTC" "mainnet" uniqueTxids ;;;
          logger_info "Removed T transaction and 3 dependent txs" ;;;
          ret None) (emits (walk "Finding " seedT (coins scenarioA)) scenarioA).
Proof.
  destruct (affected_set_is_seed_and_spenders btc "BTC" "mainnet" seedT scenarioA)
    as (uniqueTxids & Hnodup & Hin & Hold & _).
  - reflexivity.
  - vm_compute. discriminate.
  - vm_compute. repeat constructor.
  - exists uniqueTxids. split; [exact Hnodup|]. split; [|exact Hold].
    intros x. rewrite Hin. split.
    + intros [->|(coin & Hc & Hs & _)]; [now left|].
      vm_compute in Hc. destruct Hc as [ <- | [ <- | [ <- | [] ] ] ]; try discriminate Hs.
      right. now inversion Hs.
    + intros [ -> | -> ]; [now left|]. right.
      exists (mkCoin "BTC" "mainnet" "T" 1 (-1) (Some "T2") (-1)).
      split; [vm_compute; tauto|]. split; [reflexivity|discriminate].
Defined.

(** The store [oneConfirmed]: the second output of [T] was confirmed. *)
Lemma confirmed_coin_aborts_oneConfirmed :
  fst (transformOld btc "BTC" "mainnet" seedT oneConfirmed)
  = Resolved (Some (invalidCoin (confirmedOutput 1)))
  /\ transactions (snd (transformOld btc "BTC" "mainnet" seedT oneConfirmed))
     = transactions oneConfirmed
  /\ coins (snd (transformOld btc "BTC" "mainnet" seedT oneConfirmed))
     = coins oneConfirmed
  /\ mutationsOf (trace (snd (transformOld btc "BTC" "mainnet" seedT oneConfirmed)))
     = [].
Proof.
  destruct (confirmed_coin_aborts_candidate btc "BTC" "mainnet" seedT oneConfirmed
              (confirmedOutput 1)) as (Hold & _).
  - reflexivity.
  - destruct (Hold (fst (transformOld btc "BTC" "mainnet" seedT oneConfirmed))
                (snd (transformOld btc "BTC" "mainnet" seedT oneConfirmed))
                (trace (snd (transformOld btc "BTC" "mainnet" seedT oneConfirmed))))
      as (Hr & _ & Hm & Ht & Hc).
    + vm_compute. reflexivity.
    + vm_compute. reflexivity.
    + vm_compute. tauto.
    + repeat split; assumption.
Defined.

(** The store [fiftyOne]: 51 unconfirmed outputs are refused. *)
Lemma too_many_coins_fiftyOne :
  fst (transformOld btc "BTC" "mainnet" seedT fiftyOne)
  = Rejected (tooManyDecendents seedT)
  /\ fst (transformInvalid btc seedT fiftyOne)
     = Rejected (tooManyDecendents seedT).
Proof.
  destruct (too_many_unconfirmed_coins_abort_candidate btc "BTC" "mainnet" seedT
              fiftyOne) as ((w1 & E1 & _) & (w2 & E2 & _)).
  - reflexivity.
  - vm_compute. lia.
  - vm_compute. repeat constructor.
  - rewrite E1, E2. split; reflexivity.
Defined.

(** The store [fiftyThenConfirmed]: the 51st coin is confirmed. *)
Lemma height_check_precedes_ceiling_fiftyThenConfirmed :
  exists first,
    confirmed first = true
    /\ fst (transformOld btc "BTC" "mainnet" seedT fiftyThenConfirmed)
       = Resolved (Some (invalidCoin first)).
Proof.
  destruct (height_check_precedes_ceiling btc "BTC" "mainnet" seedT
              fiftyThenConfirmed 50 (confirmedOutput 50))
    as (first & _ & Hc & Hold & _).
  - reflexivity.
  - lia.
  - vm_compute. reflexivity.
  - reflexivity.
  - exists first. split; assumption.
Defined.

(** Dry-run on scenario A. *)
Lemma dry_run_scenarioA :
  transactions (snd (removeOldMempool btcDry "BTC" "mainnet" ["T2"; "T"] scenarioA))
  = transactions scenarioA
  /\ coins (snd (clearInvalid btcDry ["T2"; "T"] scenarioA)) = coins scenarioA.
Proof.
  destruct (dry_run_cascades_only_log btcDry) with
    (chain := "BTC") (network := "mainnet") (txids := ["T2"; "T"]) (w := scenarioA)
    as ((w1 & E1 & _ & T1 & _) & (w2 & E2 & _ & _ & C2)).
  - reflexivity.
  - rewrite E1, E2. split; assumption.
Defined.

(** Scenario B: [T] and [T2] get the conflicting height, the coin that
    [T2] spent is unspent again, and the coins of both get the
    conflicting mint height; the same with the three updates reversed. *)
Lemma clearInvalid_scenarioB :
  transactions (snd (clearInvalid btc ["T2"; "T"] scenarioB))
  = [ mkTx "BTC" "mainnet" "T" (-3) 0; mkTx "BTC" "mainnet" "T2" (-3) 0 ]
  /\ coins (snd (clearInvalid btc ["T2"; "T"] scenarioB))
     = [ mkCoin "BTC" "mainnet" "T" 0 (-3) (Some "T2") (-2);
         mkCoin "BTC" "mainnet" "T2" 0 (-3) None (-2) ]
  /\ coins (snd (Promise_all (rev (invalidations btc ["T2"; "T"])) scenarioB))
     = coins (snd (clearInvalid btc ["T2"; "T"] scenarioB)).
Proof.
  destruct (clearInvalid_three_updates btc) with
    (invalidTxids := ["T2"; "T"]) (w := scenarioB)
    as (w' & evs & E & _ & _ & Ht & Hc & Horder).
  - reflexivity.
  - destruct (Horder (rev (invalidations btc ["T2"; "T"]))) as (_ & Hrev).
    + apply Permutation_sym, Permutation_rev.
    + rewrite E. cbn [snd]. rewrite Hrev, Ht, Hc. repeat split.
Defined.

(** The run over [twoPairs] fails on BTC and ends there. *)
Lemma pair_failure_twoPairs :
  fst (detectAndClear btcThenBch twoPairs) = Resolved tt
  /\ running (snd (detectAndClear btcThenBch twoPairs)) = false.
Proof.
  destruct (pair_failure_is_caught_and_ends_run btcThenBch twoPairs) as (_ & H).
  destruct (H [] {| chain := Some "BTC"; network := Some "mainnet" |}
              [ {| chain := Some "BCH"; network := Some "mainnet" |} ]
              {| message := "Invalid coin! A " |}
              (set_running true twoPairs)
              (snd (forOf btcThenBch
                      [ {| chain := Some "BTC"; network := Some "mainnet" |} ]
                      (set_running true twoPairs))))
    as (E & Hr).
  - reflexivity.
  - reflexivity.
  - reflexivity.
  - reflexivity.
  - vm_compute. reflexivity.
  - rewrite E. split; [reflexivity|exact Hr].
Defined.

(** A trigger during a run on scenario A is dropped; the run itself
    releases the latch. *)
Lemma single_flight_scenarioA :
  detectAndClear btc (set_running true scenarioA)
  = (Resolved tt, set_running true scenarioA)
  /\ tick btc (idle (set_running true scenarioA)) Trigger
     = idle (set_running true scenarioA)
  /\ ticks btc [Trigger; Trigger; Settle 0] (idle scenarioA)
     = ticks btc [Trigger; Settle 0] (idle scenarioA)
  /\ running (snd (detectAndClear btc scenarioA)) = false
  /\ (List.length (inflight (ticks btc [Trigger; Trigger; Settle 0; Trigger]
                               (idle scenarioA))) <= 1)%nat.
Proof.
  destruct (detectAndClear_single_flight btc)
    as (Hdrop & Hkeep & Htwice & Hone & Hrel).
  split; [apply Hdrop; reflexivity|].
  split; [apply Hkeep; reflexivity|].
  split; [apply Htwice; reflexivity|].
  split; [|apply Hone].
  destruct (Hrel scenarioA (fst (detectAndClear btc scenarioA))
              (snd (detectAndClear btc scenarioA))) as (_ & Hr & _).
  - reflexivity.
  - apply surjective_pairing.
  - vm_compute. discriminate.
  - exact Hr.
Defined.


(** * Further properties of the service *)

(** ** The pipeline *)

Lemma pipe_app transform pre post w :
  pipe transform (pre ++ post) w
  = match pipe transform pre w with
    | (Resolved _, w') => pipe transform post w'
    | (Rejected err, w') => (Rejected err, w')
    | (Pending, w') => (Pending, w')
    end.
Proof.
  revert w. induction pre as [|data pre IH]; intros w; cbn [app pipe].
  - reflexivity.
  - destruct (transform data w) as [[[err|]|err|] w']; try reflexivity.
    apply IH.
Qed.

(** X3.  The pipeline is fail-fast.  When the candidates before [data]
    all ended in [cb()] and the transform of [data] ends in [cb(err)],
    the promise around the stream rejects with [err] in the world that
    [data] left: no candidate after [data] is handed to the transform. *)
Theorem pipe_fails_fast :
  forall transform pre data post w w0 w1 err,
    pipe transform pre w = (Resolved tt, w0) ->
    transform data w0 = (Resolved (Some err), w1) ->
    pipe transform (pre ++ data :: post) w = (Rejected err, w1).
Proof.
  intros transform pre data post w w0 w1 err Hpre Hdata.
  rewrite pipe_app, Hpre. cbn [pipe]. now rewrite Hdata.
Qed.

Lemma pipe_fails_fast_twoPairs :
  pipe (transformInvalid btc) (transactions twoPairs) twoPairs
  = (Rejected (invalidCoin (mkCoin "BTC" "mainnet" "A" 0 100 None (-2))),
     snd (transformInvalid btc (mkTx "BTC" "mainnet" "A" (-3) 0) twoPairs)).
Proof.
  apply (pipe_fails_fast (transformInvalid btc) []
           (mkTx "BTC" "mainnet" "A" (-3) 0)
           [ mkTx "BCH" "mainnet" "B" (-3) 0 ] twoPairs twoPairs).
  - reflexivity.
  - vm_compute. reflexivity.
Defined.

(** X1.  Cancellation.  With [stopping] set, a pass that finds at least
    one candidate rejects with the 'Stopping' error at the first one: it
    has counted, logged the count and opened the cursor, and nothing
    else; no generator is opened and no collection is changed. *)
Theorem stopping_rejects_at_first_candidate :
  forall env chain network days w,
    stopping w = true ->
    (filter (matchesTx (oldMempoolTxs chain network (now w - days * ONE_DAY)))
       (transactions w) <> [] ->
     processOldMempoolTxs env chain network days w
     = (Rejected stoppingError,
        emits [ Tx_countDocuments
                  (oldMempoolTxs chain network (now w - days * ONE_DAY));
                Logger_info
                  ("Found "
                   ++ show (Z.of_nat (List.length
                        (filter (matchesTx (oldMempoolTxs chain network
                                              (now w - days * ONE_DAY)))
                           (transactions w))))
                   ++ " outdated " ++ chain ++ " " ++ network ++ " mempool txs");
                Tx_find (oldMempoolTxs chain network (now w - days * ONE_DAY)) ]
          w))
    /\ (filter (matchesTx (invalidTxs chain network)) (transactions w) <> [] ->
        processAllInvalidTxs env chain network w
        = (Rejected stoppingError,
           emits [ Tx_countDocuments (invalidTxs chain network);
                   Logger_info
                     ("Found "
                      ++ show (Z.of_nat (List.length
                           (filter (matchesTx (invalidTxs chain network))
                              (transactions w))))
                      ++ " invalid " ++ chain ++ " " ++ network ++ " txs");
                   Tx_find (invalidTxs chain network) ]
             w)).
Proof.
  intros env chain network days w Hs. split; intros Hne.
  - unfold processOldMempoolTxs, bind, Date_now, countDocuments, logger_info, find.
    cbn [transactions emit].
    destruct (filter _ (transactions w)) as [|data rest]; [now contradiction Hne|].
    cbn [pipe]. unfold transformOld at 1. cbn [stopping emit]. rewrite Hs.
    reflexivity.
  - unfold processAllInvalidTxs, bind, countDocuments, logger_info, find.
    cbn [transactions emit].
    destruct (filter _ (transactions w)) as [|data rest]; [now contradiction Hne|].
    cbn [pipe]. unfold transformInvalid at 1. cbn [stopping emit]. rewrite Hs.
    reflexivity.
Qed.

Lemma stopping_rejects_scenarioA :
  fst (processOldMempoolTxs btc "BTC" "mainnet" 7 (set_stopping true scenarioA))
  = Rejected stoppingError
  /\ fst (processAllInvalidTxs btc "BTC" "mainnet" (set_stopping true scenarioB))
     = Rejected stoppingError.
Proof.
  destruct (stopping_rejects_at_first_candidate btc "BTC" "mainnet" 7
              (set_stopping true scenarioA)) as (Hold & _); [reflexivity|].
  destruct (stopping_rejects_at_first_candidate btc "BTC" "mainnet" 7
              (set_stopping true scenarioB)) as (_ & Hinv); [reflexivity|].
  rewrite Hold, Hinv.
  - split; reflexivity.
  - vm_compute. discriminate.
  - vm_compute. discriminate.
Defined.

(** ** What whole passes and runs leave alone *)

Section PreservedBy.

Variable R : World -> World -> Prop.
Hypothesis R_refl : forall w, R w w.
Hypothesis R_trans : forall a b c, R a b -> R b c -> R a c.
Hypothesis R_emit : forall e w, isMutation e = false -> R w (emit e w).
Variable env : Env.

Lemma transformOld_by_cascade chain network tx :
  (forall txids, preserves R (removeOldMempool env chain network txids)) ->
  preserves R (transformOld env chain network tx).
Proof.
  intros Hrm w. unfold transformOld. destruct (stopping w); [apply R_refl|].
  revert w. apply (preserves_bind R R_trans); [now apply preserves_logger_info|]. intros _.
  apply (preserves_bind R R_trans); [now apply preserves_relatedOutputs|].
  intros [err|[spentTxids count]]; [now apply preserves_ret|].
  apply (preserves_bind R R_trans); [apply Hrm|]. intros _.
  apply (preserves_bind R R_trans); [now apply preserves_logger_info|]. intros _.
  now apply preserves_ret.
Qed.

Lemma processOld_by_transform chain network days :
  (forall tx, preserves R (transformOld env chain network tx)) ->
  preserves R (processOldMempoolTxs env chain network days).
Proof.
  intros Ht. unfold processOldMempoolTxs.
  apply (preserves_bind R R_trans); [now apply preserves_Date_now|]. intros t.
  apply (preserves_bind R R_trans); [now apply preserves_countDocuments|]. intros count.
  apply (preserves_bind R R_trans); [now apply preserves_logger_info|]. intros _.
  apply (preserves_bind R R_trans); [now apply preserves_find|]. intros cursor.
  apply (preserves_bind R R_trans); [now apply preserves_pipe|].
  intros _. now apply preserves_logger_info.
Qed.

Lemma processInvalid_by_transform chain network :
  (forall tx, preserves R (transformInvalid env tx)) ->
  preserves R (processAllInvalidTxs env chain network).
Proof.
  intros Ht. unfold processAllInvalidTxs.
  apply (preserves_bind R R_trans); [now apply preserves_countDocuments|]. intros count.
  apply (preserves_bind R R_trans); [now apply preserves_logger_info|]. intros _.
  apply (preserves_bind R R_trans); [now apply preserves_find|]. intros cursor.
  now apply preserves_pipe.
Qed.

Hypothesis R_transformOld : forall chain network tx,
  preserves R (transformOld env chain network tx).
Hypothesis R_transformInvalid : forall tx,
  preserves R (transformInvalid env tx).

Lemma forOf_by_transform chainNetworks : preserves R (forOf env chainNetworks).
Proof.
  induction chainNetworks as [|pair rest IH]; cbn [forOf].
  - now apply preserves_ret.
  - destruct (_ || _); [now apply preserves_throw|].
    apply (preserves_bind R R_trans);
      [apply (preserves_when R R_refl); now apply processOld_by_transform|].
    intros _.
    apply (preserves_bind R R_trans);
      [apply (preserves_when R R_refl); now apply processInvalid_by_transform|].
    intros _. exact IH.
Qed.

Lemma try_by_transform : preserves R (detectAndClear_try env).
Proof.
  unfold detectAndClear_try. destruct (_ && _); [|apply forOf_by_transform].
  apply (preserves_bind R R_trans);
    [apply (preserves_when R R_refl); now apply processOld_by_transform|].
  intros _.
  apply (preserves_when R R_refl). now apply processInvalid_by_transform.
Qed.

Hypothesis R_set_running : forall b w, R w (set_running b w).

Lemma settle_by_transform r : preserves R (detectAndClear_settle r).
Proof.
  intros w. destruct r as [[]|err|]; cbn; auto.
  eapply R_trans; [apply (R_emit (Logger_error ("Pruning Error: " ++ stack err)));
                   reflexivity|].
  apply R_set_running.
Qed.

Lemma detectAndClear_by_transform : preserves R (detectAndClear env).
Proof.
  intros w. unfold detectAndClear. destruct (running w); [apply R_refl|].
  pose proof (try_by_transform (set_running true w)) as Htry.
  destruct (detectAndClear_try env _) as [r w1]. cbn [snd] in Htry.
  eapply R_trans; [apply (R_set_running true)|].
  eapply R_trans; [exact Htry|]. apply settle_by_transform.
Qed.

Lemma tick_by_transform s t : R (world s) (world (tick env s t)).
Proof.
  destruct t as [|i]; cbn [tick].
  - destruct (running (world s)); [apply R_refl|].
    pose proof (try_by_transform (set_running true (world s))) as Htry.
    destruct (detectAndClear_try env _) as [r w1]. cbn [snd world] in *.
    eapply R_trans; [apply (R_set_running true)|exact Htry].
  - destruct (nth_error (inflight s) i) as [[a|err|]|]; try apply R_refl;
      cbn [world]; apply settle_by_transform.
Qed.

Lemma ticks_by_transform ts : forall s, R (world s) (world (ticks env ts s)).
Proof.
  induction ts as [|t ts IH]; intros s; [apply R_refl|].
  eapply R_trans; [apply (tick_by_transform s t)|]. apply IH.
Qed.

End PreservedBy.

Lemma haltedSame_refl w : haltedSame w w.
Proof. intros H. split; [assumption|apply sameStore_refl]. Qed.

Lemma haltedSame_trans a b c : haltedSame a b -> haltedSame b c -> haltedSame a c.
Proof.
  intros Hab Hbc Ha. destruct (Hab Ha) as (Hb & Sab).
  destruct (Hbc Hb) as (Hc & Sbc). split; [assumption|].
  eapply sameStore_trans; eassumption.
Qed.

Lemma haltedSame_emit e w : isMutation e = false -> haltedSame w (emit e w).
Proof. intros He Hs. split; [exact Hs|now apply sameStore_emit]. Qed.

Lemma haltedSame_set_running b w : haltedSame w (set_running b w).
Proof. intros Hs. split; [exact Hs|now repeat split]. Qed.

Lemma haltedSame_transformOld env chain network tx :
  preserves haltedSame (transformOld env chain network tx).
Proof.
  intros w Hs. unfold transformOld. rewrite Hs.
  split; [exact Hs|apply sameStore_refl].
Qed.

Lemma haltedSame_transformInvalid env tx :
  preserves haltedSame (transformInvalid env tx).
Proof.
  intros w Hs. unfold transformInvalid. rewrite Hs.
  split; [exact Hs|apply sameStore_refl].
Qed.

(** X2.  A run that starts after [stop].  Nothing in the service clears
    [stopping].  When the flag is set at the time [detectAndClear] is
    called, that call, and every later call made after it has returned,
    leaves the flag set, changes neither collection and issues no call
    that changes one.  (A run that is already in flight when [stop] is
    called is not covered: [stop] does not wait for it, and a candidate
    that is past the test of lines 116/164 still gets its cascade.) *)
Theorem run_started_after_stop_never_mutates :
  forall env n w,
    stopping w = true ->
    stopping (calls env n w) = true
    /\ transactions (calls env n w) = transactions w
    /\ coins (calls env n w) = coins w
    /\ mutationsOf (trace (calls env n w)) = mutationsOf (trace w).
Proof.
  intros env n w Hs.
  assert (H : stopping (calls env n w) = true /\ sameStore w (calls env n w)).
  { induction n as [|n IH]; [split; [exact Hs|apply sameStore_refl]|].
    destruct IH as (Hs' & Hsame). unfold calls in *. cbn [Nat.iter].
    destruct (detectAndClear_by_transform haltedSame haltedSame_refl
                haltedSame_trans haltedSame_emit env
                (haltedSame_transformOld env) (haltedSame_transformInvalid env)
                haltedSame_set_running _ Hs') as (Hs'' & Hsame').
    split; [exact Hs''|]. eapply sameStore_trans; eassumption. }
  destruct H as (Hs' & Ht & Hc & Hm). repeat split; assumption.
Qed.

(** Scenario A after [stop]: three calls in a row delete nothing. *)
Lemma run_after_stop_scenarioA :
  stopping (snd (stop scenarioA)) = true
  /\ transactions (calls btc 3 (snd (stop scenarioA))) = transactions scenarioA
  /\ coins (calls btc 3 (snd (stop scenarioA))) = coins scenarioA.
Proof.
  destruct (run_started_after_stop_never_mutates btc 3 (snd (stop scenarioA)))
    as (_ & Ht & Hc & _).
  - reflexivity.
  - split; [reflexivity|]. split; [exact Ht|exact Hc].
Defined.

Lemma sameStore_set_running b w : sameStore w (set_running b w).
Proof. now repeat split. Qed.

(** X8.  Dry-run, for a whole run.  With the dry-run flag set,
    [detectAndClear] with any modes, any pairs and any store leaves both
    collections as they are and issues no call that changes one,
    however the run ends. *)
Theorem dry_run_never_mutates :
  forall env w,
    DRY (args env) = true ->
    let w' := snd (detectAndClear env w) in
    transactions w' = transactions w
    /\ coins w' = coins w
    /\ mutationsOf (trace w') = mutationsOf (trace w).
Proof.
  intros env w Hdry.
  apply (detectAndClear_by_transform sameStore sameStore_refl sameStore_trans
           sameStore_emit env).
  - intros chain network tx.
    apply (transformOld_by_cascade sameStore sameStore_refl sameStore_trans
             sameStore_emit env).
    intros txids w0. rewrite removeOldMempool_dry by assumption.
    now apply sameStore_emit.
  - intros tx.
    apply (preserves_transformInvalid sameStore sameStore_refl sameStore_trans
             sameStore_emit env).
    intros txids w0. rewrite clearInvalid_dry by assumption.
    now apply sameStore_emit.
  - exact sameStore_set_running.
Qed.

Lemma dry_run_never_mutates_scenarioA :
  transactions (snd (detectAndClear btcDry scenarioA)) = transactions scenarioA
  /\ coins (snd (detectAndClear btcDry scenarioA)) = coins scenarioA.
Proof.
  destruct (dry_run_never_mutates btcDry scenarioA) as (Ht & Hc & _).
  - reflexivity.
  - split; assumption.
Defined.

(** ** The old-mempool pass only deletes, and only its own mempool *)

Lemma keepsOutside_refl chain network w : keepsOutside chain network w w.
Proof. repeat split; auto. Qed.

Lemma keepsOutside_trans chain network a b c :
  keepsOutside chain network a b -> keepsOutside chain network b c ->
  keepsOutside chain network a c.
Proof.
  intros ((T1 & C1) & FT1 & FC1) ((T2 & C2) & FT2 & FC2).
  repeat split; auto; congruence.
Qed.

Lemma keepsOutside_emit chain network e w :
  isMutation e = false -> keepsOutside chain network w (emit e w).
Proof. intros _. repeat split; auto. Qed.

Lemma keepsOutside_removeOldMempool env chain network txids :
  preserves (keepsOutside chain network)
    (removeOldMempool env chain network txids).
Proof.
  intros w. unfold removeOldMempool.
  destruct (DRY (args env)); cbn; [now apply keepsOutside_emit|].
  split; [split|split].
  - intros t H. now apply filter_In in H.
  - intros c H. now apply filter_In in H.
  - apply filter_filter_imp. intros t. unfold outsideTx, matchesTx, holds. cbn.
    destruct (String.eqb (tx_chain t) chain); [|reflexivity].
    destruct (String.eqb (tx_network t) network); [|reflexivity].
    destruct (blockHeight t =? -1); [discriminate|].
    intros _. cbn. now rewrite andb_false_r.
  - apply filter_filter_imp. intros c. unfold outsideCoin, matchesCoin, holds. cbn.
    destruct (String.eqb (coin_chain c) chain); [|reflexivity].
    destruct (String.eqb (coin_network c) network); [|reflexivity].
    destruct (mintHeight c =? -1); [discriminate|].
    intros _. cbn. now rewrite andb_false_r.
Qed.

(** X5.  The old-mempool pass for a pair only deletes.  Whatever the
    configuration, the generator and the outcome of the pass, every
    transaction and every coin left was there before, unchanged; and
    every transaction whose chain, network or height differs from the
    pair's and -1, and every coin whose chain, network or mint height
    does, is still there, in the same order.  So the pass never deletes a
    record with a confirmed height or of another pair. *)
Theorem old_mempool_pass_only_deletes_its_mempool :
  forall env chain network days w,
    let w' := snd (processOldMempoolTxs env chain network days w) in
    (forall t, In t (transactions w') -> In t (transactions w))
    /\ (forall c, In c (coins w') -> In c (coins w))
    /\ filter (outsideTx chain network) (transactions w')
       = filter (outsideTx chain network) (transactions w)
    /\ filter (outsideCoin chain network) (coins w')
       = filter (outsideCoin chain network) (coins w).
Proof.
  intros env chain network days w.
  destruct (processOld_by_transform (keepsOutside chain network)
              (keepsOutside_refl chain network)
              (keepsOutside_trans chain network)
              (keepsOutside_emit chain network) env chain network days
              (fun tx =>
                 transformOld_by_cascade (keepsOutside chain network)
                   (keepsOutside_refl chain network)
                   (keepsOutside_trans chain network)
                   (keepsOutside_emit chain network) env chain network tx
                   (keepsOutside_removeOldMempool env chain network)) w)
    as ((Ht & Hc) & Hft & Hfc).
  repeat split; assumption.
Qed.

(** ** The invalid pass only moves heights *)

Lemma Forall2_same {A : Type} (P : A -> A -> Prop) l :
  (forall x, P x x) -> Forall2 P l l.
Proof. intros H. induction l; constructor; auto. Qed.

Lemma Forall2_compose {A : Type} (P : A -> A -> Prop) :
  (forall x y z, P x y -> P y z -> P x z) ->
  forall l1 l2 l3, Forall2 P l1 l2 -> Forall2 P l2 l3 -> Forall2 P l1 l3.
Proof.
  intros H l1 l2 l3 H12. revert l3.
  induction H12 as [|x y l1 l2 Hxy _ IH]; intros l3 H23;
    inversion H23; subst; constructor; eauto.
Qed.

Lemma Forall2_map_r {A : Type} (P : A -> A -> Prop) (f : A -> A) l :
  (forall x, P x (f x)) -> Forall2 P l (map f l).
Proof. intros H. induction l; cbn; constructor; auto. Qed.

Lemma txInvalidatedFrom_trans env x y z :
  txInvalidatedFrom env x y -> txInvalidatedFrom env y z ->
  txInvalidatedFrom env x z.
Proof.
  intros (A1 & A2 & A3 & A4 & A5) (B1 & B2 & B3 & B4 & B5).
  repeat split; try congruence.
  destruct B5 as [B5|B5]; [|now right]. rewrite B5. exact A5.
Qed.

Lemma coinInvalidatedFrom_trans env x y z :
  coinInvalidatedFrom env x y -> coinInvalidatedFrom env y z ->
  coinInvalidatedFrom env x z.
Proof.
  intros (A1 & A2 & A3 & A4 & A5 & A6 & A7) (B1 & B2 & B3 & B4 & B5 & B6 & B7).
  repeat split; try congruence.
  - destruct B6 as [B6|B6]; [|now right]. rewrite B6. exact A6.
  - destruct B7 as [B7|B7]; [|now right]. rewrite B7. exact A7.
Qed.

Lemma onlyInvalidated_refl env w : onlyInvalidated env w w.
Proof.
  split; apply Forall2_same; intros x; repeat split; auto.
Qed.

Lemma onlyInvalidated_trans env a b c :
  onlyInvalidated env a b -> onlyInvalidated env b c -> onlyInvalidated env a c.
Proof.
  intros (T1 & C1) (T2 & C2). split.
  - eapply Forall2_compose; eauto using txInvalidatedFrom_trans.
  - eapply Forall2_compose; eauto using coinInvalidatedFrom_trans.
Qed.

Lemma onlyInvalidated_emit env e w :
  isMutation e = false -> onlyInvalidated env w (emit e w).
Proof. intros _. exact (onlyInvalidated_refl env w). Qed.

Lemma onlyInvalidated_clearInvalid env invalidTxids :
  preserves (onlyInvalidated env) (clearInvalid env invalidTxids).
Proof.
  intros w. unfold clearInvalid.
  destruct (DRY (args env)); [now apply onlyInvalidated_emit|].
  unfold bind at 1. unfold logger_info at 1.
  destruct (invalidations_any_order env invalidTxids
              (invalidations env invalidTxids)
              (emit (Logger_info ("" ++ "Invalidating "
                 ++ show (Z.of_nat (List.length invalidTxids)) ++ " txids")) w)
              (Permutation_refl _)) as (Ht & Hc).
  split.
  - rewrite Ht. apply Forall2_map_r. intros t. unfold invalidatedTx.
    destruct (Set_has (txid t) invalidTxids); cbn; repeat split; auto.
  - rewrite Hc. apply Forall2_map_r. intros c. unfold invalidatedCoin.
    cbn. repeat split.
    + destruct (Set_has (mintTxid c) invalidTxids); auto.
    + destruct (spentByOneOf invalidTxids c); auto.
Qed.

(** X6.  The invalid pass never deletes and never adds.  Whatever the
    configuration, the generator and the outcome of the pass, the two
    collections hold the same records in the same order, with chain,
    network, txid, time, mint txid, mint index and spent txid as they
    were; a transaction's height is what it was or the conflicting
    indicator, a coin's mint height likewise, and a coin's spent height is
    what it was or the unspent indicator. *)
Theorem invalid_pass_only_moves_heights :
  forall env chain network w,
    let w' := snd (processAllInvalidTxs env chain network w) in
    Forall2 (txInvalidatedFrom env) (transactions w) (transactions w')
    /\ Forall2 (coinInvalidatedFrom env) (coins w) (coins w').
Proof.
  intros env chain network w.
  apply (preserves_processAllInvalidTxs (onlyInvalidated env)
           (onlyInvalidated_refl env) (onlyInvalidated_trans env)
           (onlyInvalidated_emit env) env
           (onlyInvalidated_clearInvalid env) chain network w).
Qed.

(** ** What one candidate can reach *)

Lemma Set_add_length x s : (List.length (Set_add x s) <= S (List.length s))%nat.
Proof.
  unfold Set_add. destruct (Set_has x s); [lia|].
  rewrite length_app. cbn. lia.
Qed.

Lemma spenders_length ys : forall s,
  (List.length (fold_left addSpent ys s) <= List.length s + List.length ys)%nat.
Proof.
  induction ys as [|c ys IH]; intros s; cbn [fold_left List.length]; [lia|].
  specialize (IH (addSpent s c)).
  assert (List.length (addSpent s c) <= S (List.length s))%nat.
  { unfold addSpent. destruct (spentTxid c) as [t|]; [|lia].
    destruct (truthy (Some t)); [apply Set_add_length|lia]. }
  lia.
Qed.

Lemma filter_isYielded_walk finding tx ys :
  filter isYielded (walk finding tx ys) = map Yielded ys.
Proof. unfold walk. cbn. induction ys; cbn; [reflexivity|now f_equal]. Qed.

(** The calls of a candidate: its walk over at most 51 coins, or its
    walk over a whole traversal of at most 50 coins and then what it
    does with the set. *)
Lemma candidate_calls finding tx ys
    (finish : list string -> Z -> Async (option Error))
    (P : list string -> list Event -> Prop) w r w' evs :
  (forall s count w0, exists evs0,
      trace (snd (finish s count w0)) = (trace w0 ++ evs0)%list /\ P s evs0) ->
  match forAwait tx ys [] 0 (emits (walk finding tx []) w) with
  | (Resolved (inl err), w') => (Resolved (Some err), w')
  | (Resolved (inr (spentTxids, count)), w') => finish spentTxids count w'
  | (Rejected err, w') => (Rejected err, w')
  | (Pending, w') => (Pending, w')
  end = (r, w') ->
  trace w' = (trace w ++ evs)%list ->
  (exists read, (List.length read <= 51)%nat /\ evs = walk finding tx read)
  \/ (exists evs0,
        (List.length ys <= 50)%nat
        /\ evs = (walk finding tx ys ++ evs0)%list
        /\ P (fold_left addSpent ys []) evs0).
Proof.
  intros Hfinish E Ht.
  destruct (closure_cases ys 0) as
    [(Hu & Hl)|[(pre & x & post & -> & Hu & Hl & Hx)
               |(pre & x & post & -> & Hu & Hl & Hx)]]; [lia| | |].
  - right. rewrite forAwait_completed, walk_emits in E by assumption.
    destruct (Hfinish (fold_left addSpent ys []) (0 + Z.of_nat (List.length ys))
                (emits (walk finding tx ys) w)) as (evs0 & T0 & P0).
    rewrite E in T0. cbn [snd] in T0.
    rewrite Ht, trace_emits, <- app_assoc in T0. apply app_inv_head in T0.
    exists evs0. repeat split; [lia|assumption|assumption].
  - left. rewrite forAwait_invalid, walk_emits in E by assumption.
    inversion E; subst r w'.
    destruct (stoppedInWalk_emits finding tx pre x post w evs Ht) as (-> & _).
    exists (pre ++ [x])%list.
    split; [rewrite length_app; cbn; lia|reflexivity].
  - left. rewrite forAwait_tooMany, walk_emits in E by assumption.
    inversion E; subst r w'.
    destruct (stoppedInWalk_emits finding tx pre x post w evs Ht) as (-> & _).
    exists (pre ++ [x])%list.
    split; [rewrite length_app; cbn; lia|reflexivity].
Qed.

Section Reach.

Variable env : Env.

Lemma finishOld_calls chain network tx s (count : Z) w0 :
  exists evs0,
    trace (snd ((removeOldMempool env chain network (Set_add (txid tx) s) ;;;
                 logger_info ("Removed " ++ txid tx ++ " transaction and "
                              ++ show count ++ " dependent txs") ;;;
                 @ret (option Error) None) w0))
    = (trace w0 ++ evs0)%list
    /\ cascadeCalls (txid tx) s evs0.
Proof.
  unfold removeOldMempool. destruct (DRY (args env));
    eexists; cbn; rewrite <- ?app_assoc; (split; [reflexivity|]);
    (split; [reflexivity|]); cbn;
    intros e H He; repeat (destruct H as [<-|H]; try discriminate He; try reflexivity);
    destruct H.
Qed.

Lemma finishInvalid_calls tx s (count : Z) w0 :
  exists evs0,
    trace (snd ((clearInvalid env (Set_add (txid tx) s) ;;;
                 logger_info ("Invalidated " ++ txid tx ++ " and "
                              ++ show count ++ " dependent txs") ;;;
                 @ret (option Error) None) w0))
    = (trace w0 ++ evs0)%list
    /\ cascadeCalls (txid tx) s evs0.
Proof.
  unfold clearInvalid. destruct (DRY (args env));
    eexists; cbn; rewrite <- ?app_assoc; (split; [reflexivity|]);
    (split; [reflexivity|]); cbn;
    intros e H He; repeat (destruct H as [<-|H]; try discriminate He; try reflexivity);
    destruct H.
Qed.

(** The calls of either transform on one candidate. *)
Lemma transform_calls chain network tx w :
  let ys := yieldRelatedOutputs env (transactions w) (coins w) (txid tx) in
  forall r w' evs,
    (transformOld env chain network tx w = (r, w')
     \/ transformInvalid env tx w = (r, w')) ->
    trace w' = (trace w ++ evs)%list ->
    exists finding,
      (exists read, (List.length read <= 51)%nat /\ evs = walk finding tx read)
      \/ (exists evs0,
            (List.length ys <= 50)%nat
            /\ evs = (walk finding tx ys ++ evs0)%list
            /\ cascadeCalls (txid tx) (fold_left addSpent ys []) evs0)
      \/ evs = [].
Proof.
  intros ys r w' evs E Ht. destruct (stopping w) eqn:Hs.
  { exists "". right; right.
    assert (w' = w) as ->.
    { destruct E as [E|E];
        [unfold transformOld in E | unfold transformInvalid in E];
        rewrite Hs in E; now inversion E. }
    rewrite <- (app_nil_r (trace w)) in Ht at 1. now apply app_inv_head in Ht. }
  destruct E as [E|E].
  - exists "Finding ". rewrite (transformOld_loop env chain network tx w Hs) in E.
    destruct (candidate_calls "Finding " tx ys _ (cascadeCalls (txid tx))
                w r w' evs (finishOld_calls chain network tx) E Ht) as [H|H]; auto.
  - exists "Invalidating ". rewrite (transformInvalid_loop env tx w Hs) in E.
    destruct (candidate_calls "Invalidating " tx ys _ (cascadeCalls (txid tx))
                w r w' evs (finishInvalid_calls tx) E Ht) as [H|H]; auto.
Qed.

(** X4.  Bounded reach.  Every call that changes a collection and that a
    transform issues for a candidate was given, in its [$in], one array
    of at most 51 txids without duplicates that holds the candidate's
    own txid. *)
Theorem mutation_reaches_at_most_51_txids :
  forall chain network tx w r w' evs e,
    (transformOld env chain network tx w = (r, w')
     \/ transformInvalid env tx w = (r, w')) ->
    trace w' = (trace w ++ evs)%list ->
    In e evs ->
    isMutation e = true ->
    exists txids,
      affectedOf e = Some txids
      /\ (List.length txids <= 51)%nat
      /\ NoDup txids
      /\ In (txid tx) txids.
Proof.
  intros chain network tx w r w' evs e E Ht Hin He.
  destruct (transform_calls chain network tx w r w' evs E Ht)
    as (finding & [(read & _ & ->)|[(evs0 & Hlen & -> & _ & Hcalls)| ->]]).
  - exfalso. assert (In e (mutationsOf (walk finding tx read))) as H
      by (apply filter_In; now split).
    rewrite mutationsOf_walk in H. destruct H.
  - apply in_app_iff in Hin. destruct Hin as [Hin|Hin].
    + exfalso. assert (In e (mutationsOf (walk finding tx
          (yieldRelatedOutputs env (transactions w) (coins w) (txid tx))))) as H
        by (apply filter_In; now split).
      rewrite mutationsOf_walk in H. destruct H.
    + eexists. split; [apply (Hcalls e Hin He)|]. split; [|split].
      * pose proof (Set_add_length (txid tx) (fold_left addSpent
          (yieldRelatedOutputs env (transactions w) (coins w) (txid tx)) [])).
        pose proof (spenders_length
          (yieldRelatedOutputs env (transactions w) (coins w) (txid tx)) []).
        cbn [List.length] in *. lia.
      * apply Set_add_NoDup, spenders_NoDup. constructor.
      * apply Set_add_In. now left.
  - destruct Hin.
Qed.

(** X11.  Bounded read.  However many coins the generator could
    produce, a transform reads at most 51 of them for one candidate. *)
Theorem at_most_51_coins_read :
  forall chain network tx w r w' evs,
    (transformOld env chain network tx w = (r, w')
     \/ transformInvalid env tx w = (r, w')) ->
    trace w' = (trace w ++ evs)%list ->
    (List.length (filter isYielded evs) <= 51)%nat.
Proof.
  intros chain network tx w r w' evs E Ht.
  destruct (transform_calls chain network tx w r w' evs E Ht)
    as (finding & [(read & Hlen & ->)|[(evs0 & Hlen & -> & Hy & _)| ->]]).
  - now rewrite filter_isYielded_walk, length_map.
  - rewrite filter_app, Hy, app_nil_r, filter_isYielded_walk, length_map. lia.
  - cbn. lia.
Qed.

End Reach.

Lemma mutation_reach_scenarioA :
  exists txids,
    affectedOf (Tx_deleteMany (deleted "BTC" "mainnet" ["T2"; "T"])) = Some txids
    /\ (List.length txids <= 51)%nat /\ NoDup txids /\ In "T" txids.
Proof.
  apply (mutation_reaches_at_most_51_txids btc "BTC" "mainnet" seedT scenarioA
           (fst (transformOld btc "BTC" "mainnet" seedT scenarioA))
           (snd (transformOld btc "BTC" "mainnet" seedT scenarioA))
           (trace (snd (transformOld btc "BTC" "mainnet" seedT scenarioA)))).
  - left. apply surjective_pairing.
  - reflexivity.
  - vm_compute. tauto.
  - reflexivity.
Defined.

Lemma coins_read_fiftyOne :
  (List.length (filter isYielded
     (trace (snd (transformInvalid btc seedT (mkWorld [seedT] (outputsOfT 80))))))
   <= 51)%nat.
Proof.
  apply (at_most_51_coins_read btc "BTC" "mainnet" seedT
           (mkWorld [seedT] (outputsOfT 80))
           (fst (transformInvalid btc seedT (mkWorld [seedT] (outputsOfT 80))))
           (snd (transformInvalid btc seedT (mkWorld [seedT] (outputsOfT 80))))).
  - right. apply surjective_pairing.
  - reflexivity.
Defined.

(** ** [clearInvalid], twice *)

Lemma clearInvalid_store env invalidTxids w :
  DRY (args env) = false ->
  transactions (snd (clearInvalid env invalidTxids w))
  = map (invalidatedTx env invalidTxids) (transactions w)
  /\ coins (snd (clearInvalid env invalidTxids w))
     = map (invalidatedCoin env invalidTxids) (coins w).
Proof.
  intros Hdry. unfold clearInvalid. rewrite Hdry.
  unfold bind at 1. unfold logger_info at 1.
  apply (invalidations_any_order env invalidTxids (invalidations env invalidTxids)
           (emit (Logger_info ("" ++ "Invalidating "
              ++ show (Z.of_nat (List.length invalidTxids)) ++ " txids")) w)
           (Permutation_refl _)).
Qed.

Lemma invalidatedTx_twice env invalidTxids t :
  invalidatedTx env invalidTxids (invalidatedTx env invalidTxids t)
  = invalidatedTx env invalidTxids t.
Proof.
  unfold invalidatedTx. destruct (Set_has (txid t) invalidTxids) eqn:E.
  - cbn. now rewrite E.
  - now rewrite E.
Qed.

Lemma invalidatedCoin_twice env invalidTxids c :
  invalidatedCoin env invalidTxids (invalidatedCoin env invalidTxids c)
  = invalidatedCoin env invalidTxids c.
Proof.
  unfold invalidatedCoin, spentByOneOf, mkCoin. cbn.
  destruct (Set_has (mintTxid c) invalidTxids);
    destruct (spentTxid c) as [s|]; try destruct (Set_has s invalidTxids);
    reflexivity.
Qed.

(** X7.  [clearInvalid] is idempotent on the store: calling it a second
    time with the same txids leaves both collections as the first call
    left them.  The first call keeps the [spentTxid] of the coins it
    unspends, so the second call matches the same records and sets the
    same values. *)
Theorem clearInvalid_idempotent :
  forall env invalidTxids w,
    let w1 := snd (clearInvalid env invalidTxids w) in
    let w2 := snd (clearInvalid env invalidTxids w1) in
    transactions w2 = transactions w1
    /\ coins w2 = coins w1
    /\ Forall2 (fun c c1 => spentTxid c1 = spentTxid c) (coins w) (coins w1).
Proof.
  intros env invalidTxids w w1 w2. unfold w2, w1.
  destruct (DRY (args env)) eqn:Hdry.
  - rewrite !clearInvalid_dry by assumption. cbn.
    repeat split. now apply Forall2_same.
  - destruct (clearInvalid_store env invalidTxids w Hdry) as (Ht & Hc).
    destruct (clearInvalid_store env invalidTxids
                (snd (clearInvalid env invalidTxids w)) Hdry) as (Ht2 & Hc2).
    rewrite Ht2, Hc2, Ht, Hc, !map_map. split; [|split].
    + apply map_ext, invalidatedTx_twice.
    + apply map_ext, invalidatedCoin_twice.
    + apply Forall2_map_r. reflexivity.
Qed.

(** ** Passes and runs at their edges *)

(** X10.  The age bound is strict.  When every mempool transaction of
    the pair has a time at or after [Date.now()] minus the age, a
    transaction of exactly that age included, the old-mempool pass finds
    no candidate: it counts, logs 'Found 0 ...', opens the cursor, logs
    its last line and resolves, and both collections are as they were. *)
Theorem young_mempool_is_not_swept :
  forall env chain network days w,
    (forall t, In t (transactions w) ->
               tx_chain t = chain -> tx_network t = network ->
               blockHeight t = -1 ->
               now w - days * ONE_DAY <= blockTimeNormalized t) ->
    exists w',
      processOldMempoolTxs env chain network days w = (Resolved tt, w')
      /\ trace w'
         = (trace w
            ++ [ Tx_countDocuments
                   (oldMempoolTxs chain network (now w - days * ONE_DAY));
                 Logger_info ("Found 0 outdated " ++ chain ++ " " ++ network
                              ++ " mempool txs");
                 Tx_find (oldMempoolTxs chain network (now w - days * ONE_DAY));
                 Logger_info ("Removed all old mempool txs within the last "
                              ++ show days ++ " days") ])%list
      /\ transactions w' = transactions w
      /\ coins w' = coins w.
Proof.
  intros env chain network days w Hyoung.
  assert (Hnone : filter (matchesTx (oldMempoolTxs chain network
                                       (now w - days * ONE_DAY)))
                    (transactions w) = []).
  { apply filter_nil. intros t Hin.
    destruct (matchesTx _ t) eqn:Hm; [exfalso|reflexivity].
    revert Hm. unfold matchesTx, oldMempoolTxs, holds. cbn.
    rewrite !andb_true_iff.
    intros ((((Hc & Hn) & _) & Hh) & Hlt).
    apply String.eqb_eq in Hc, Hn. apply Z.eqb_eq in Hh. apply Z.ltb_lt in Hlt.
    specialize (Hyoung t Hin Hc Hn Hh).
    unfold ONE_DAY, ONE_HOUR, ONE_MIN in *. lia. }
  eexists. split; [|split; [|split]].
  - unfold processOldMempoolTxs, bind, Date_now, countDocuments, logger_info, find.
    cbn [transactions emit]. rewrite Hnone. reflexivity.
  - cbn. rewrite <- !app_assoc. reflexivity.
  - reflexivity.
  - reflexivity.
Qed.

(** In scenario A the clock reads day 8 and [T] has time 0: with an age
    of 8 days [T] is exactly at the bound and stays. *)
Lemma young_mempool_scenarioA :
  fst (processOldMempoolTxs btc "BTC" "mainnet" 8 scenarioA) = Resolved tt
  /\ transactions (snd (processOldMempoolTxs btc "BTC" "mainnet" 8 scenarioA))
     = transactions scenarioA.
Proof.
  destruct (young_mempool_is_not_swept btc "BTC" "mainnet" 8 scenarioA)
    as (w' & E & _ & Ht & _).
  - intros t Hin _ _ _. vm_compute in Hin.
    destruct Hin as [ <- | [ <- | [] ] ]; vm_compute; discriminate.
  - rewrite E. split; [reflexivity|exact Ht].
Defined.

(** X12.  The two modes of one pair share the [try].  With an explicit
    pair and both modes on, an old-mempool pass that rejects is caught
    and logged and the run ends there: the invalid pass is not started
    in that run. *)
Theorem old_failure_skips_invalid_pass :
  forall env w err w1,
    running w = false ->
    truthy (CHAIN env) && truthy (NETWORK env) = true ->
    OLD (args env) = true ->
    processOldMempoolTxs env (str (CHAIN env)) (str (NETWORK env))
      (MEMPOOL_AGE env) (set_running true w) = (Rejected err, w1) ->
    detectAndClear env w
    = (Resolved tt,
       set_running false
         (emit (Logger_error ("Pruning Error: " ++ stack err)) w1)).
Proof.
  intros env w err w1 Hr Hpair Hold E.
  unfold detectAndClear, detectAndClear_try. rewrite Hr, Hpair, Hold.
  unfold bind, when. rewrite E. reflexivity.
Qed.

Lemma old_failure_oneConfirmed :
  fst (detectAndClear btc oneConfirmed) = Resolved tt
  /\ findChains (trace (snd (detectAndClear btc oneConfirmed))) = ["BTC"].
Proof.
  rewrite (old_failure_skips_invalid_pass btc oneConfirmed
             (invalidCoin (confirmedOutput 1))
             (snd (processOldMempoolTxs btc "BTC" "mainnet" 7
                     (set_running true oneConfirmed)))).
  - split; vm_compute; reflexivity.
  - reflexivity.
  - reflexivity.
  - reflexivity.
  - vm_compute. reflexivity.
Defined.

(** X13.  An entry of the configuration without a chain or without a
    network is found when the loop reaches it, not before: the entries
    in front of it are processed, then the run ends with the
    'Config structure ...' error caught and logged, the latch released,
    and no entry after it processed. *)
Theorem malformed_pair_ends_run :
  forall env pre bad post w w0,
    running w = false ->
    truthy (CHAIN env) && truthy (NETWORK env) = false ->
    Config_chainNetworks env = (pre ++ bad :: post)%list ->
    truthy (chain bad) && truthy (network bad) = false ->
    forOf env pre (set_running true w) = (Resolved tt, w0) ->
    detectAndClear env w
    = (Resolved tt,
       set_running false
         (emit (Logger_error ("Pruning Error: " ++ stack configError)) w0)).
Proof.
  intros env pre bad post w w0 Hr Hpair Hcfg Hbad Hpre.
  unfold detectAndClear, detectAndClear_try. rewrite Hr, Hpair, Hcfg.
  rewrite forOf_app, Hpre. cbn [forOf].
  replace (negb (truthy (chain bad)) || negb (truthy (network bad))) with true
    by (destruct (truthy (chain bad)), (truthy (network bad));
        cbn in *; congruence).
  reflexivity.
Qed.

Lemma malformed_pair_btcThenBroken :
  fst (detectAndClear btcThenBroken scenarioA) = Resolved tt
  /\ transactions (snd (detectAndClear btcThenBroken scenarioA)) = []
  /\ In (Logger_error
           "Pruning Error: Error: Config structure should contain both a chain and network")
        (trace (snd (detectAndClear btcThenBroken scenarioA))).
Proof.
  rewrite (malformed_pair_ends_run btcThenBroken
             [ {| chain := Some "BTC"; network := Some "mainnet" |} ]
             {| chain := Some "BCH"; network := None |} [] scenarioA
             (snd (forOf btcThenBroken
                     [ {| chain := Some "BTC"; network := Some "mainnet" |} ]
                     (set_running true scenarioA)))).
  - split; [reflexivity|]. split; [vm_compute; reflexivity|].
    cbn [snd trace set_running emit]. apply in_or_app. right. now left.
  - reflexivity.
  - reflexivity.
  - reflexivity.
  - reflexivity.
  - vm_compute. reflexivity.
Defined.

(** ** A [throw] inside a transform *)

Section Unreported.

Variable env : Env.

Lemma transforms_throw chain network tx w :
  stopping w = false ->
  (50 < List.length
          (yieldRelatedOutputs env (transactions w) (coins w) (txid tx)))%nat ->
  Forall unconfirmed
    (firstn 51 (yieldRelatedOutputs env (transactions w) (coins w) (txid tx))) ->
  transformOld env chain network tx w
  = (Rejected (tooManyDecendents tx),
     emits (walk "Finding " tx
              (firstn 51 (yieldRelatedOutputs env (transactions w) (coins w)
                            (txid tx)))) w)
  /\ transformInvalid env tx w
     = (Rejected (tooManyDecendents tx),
        emits (walk "Invalidating " tx
                 (firstn 51 (yieldRelatedOutputs env (transactions w) (coins w)
                               (txid tx)))) w).
Proof.
  intros Hs Hlen Hu.
  destruct (split_at 50 _ Hlen) as (pre & x & post & Ey & Hpre).
  rewrite Ey, <- Hpre, firstn_prefix in Hu |- *.
  apply Forall_app in Hu. destruct Hu as [Hu Hx].
  inversion Hx as [|? ? Hx' _]; subst.
  rewrite (transformOld_loop env chain network tx w Hs).
  rewrite (transformInvalid_loop env tx w Hs).
  rewrite Ey, !forAwait_tooMany, !walk_emits by (assumption || lia).
  split; reflexivity.
Qed.

(** X9.  The 'too many decendents' error is never reported by the
    service.  It is thrown inside the async transform, whose callback is
    then never called, so the stream emits neither 'finish' nor 'error'
    and the service settles nothing.  When the first candidate of a pass
    has more than 50 traversal coins, the first 51 unconfirmed, the pass
    has counted, logged the count, opened the cursor and walked those 51
    coins, and that is all: its promise is neither resolved nor
    rejected, its closing line is not logged, no later candidate is
    handed to the transform and both collections are as they were.  For
    [detectAndClear] with an explicit pair and the old-mempool mode on,
    the [catch] logs no 'Pruning Error' line, the [finally] has not run,
    and the invalid pass is not started.  What the runtime does with the
    rejection that nobody handles is outside the service. *)
Theorem too_many_decendents_is_never_reported :
  forall chain network days tx rest w,
    stopping w = false ->
    (50 < List.length
            (yieldRelatedOutputs env (transactions w) (coins w) (txid tx)))%nat ->
    Forall unconfirmed
      (firstn 51 (yieldRelatedOutputs env (transactions w) (coins w) (txid tx))) ->
    (filter (matchesTx (oldMempoolTxs chain network (now w - days * ONE_DAY)))
       (transactions w) = tx :: rest ->
     processOldMempoolTxs env chain network days w
     = (Pending,
        emits ([ Tx_countDocuments
                   (oldMempoolTxs chain network (now w - days * ONE_DAY));
                 Logger_info
                   ("Found " ++ show (Z.of_nat (List.length (tx :: rest)))
                    ++ " outdated " ++ chain ++ " " ++ network ++ " mempool txs");
                 Tx_find (oldMempoolTxs chain network (now w - days * ONE_DAY)) ]
               ++ walk "Finding " tx
                    (firstn 51 (yieldRelatedOutputs env (transactions w)
                                  (coins w) (txid tx)))) w)
     /\ (running w = false ->
         truthy (CHAIN env) && truthy (NETWORK env) = true ->
         OLD (args env) = true ->
         chain = str (CHAIN env) -> network = str (NETWORK env) ->
         days = MEMPOOL_AGE env ->
         detectAndClear env w
         = (Pending,
            emits ([ Tx_countDocuments
                       (oldMempoolTxs chain network (now w - days * ONE_DAY));
                     Logger_info
                       ("Found " ++ show (Z.of_nat (List.length (tx :: rest)))
                        ++ " outdated " ++ chain ++ " " ++ network
                        ++ " mempool txs");
                     Tx_find
                       (oldMempoolTxs chain network (now w - days * ONE_DAY)) ]
                   ++ walk "Finding " tx
                        (firstn 51 (yieldRelatedOutputs env (transactions w)
                                      (coins w) (txid tx))))
              (set_running true w))))
    /\ (filter (matchesTx (invalidTxs chain network)) (transactions w)
        = tx :: rest ->
        processAllInvalidTxs env chain network w
        = (Pending,
           emits ([ Tx_countDocuments (invalidTxs chain network);
                    Logger_info
                      ("Found " ++ show (Z.of_nat (List.length (tx :: rest)))
                       ++ " invalid " ++ chain ++ " " ++ network ++ " txs");
                    Tx_find (invalidTxs chain network) ]
                  ++ walk "Invalidating " tx
                       (firstn 51 (yieldRelatedOutputs env (transactions w)
                                     (coins w) (txid tx)))) w)).
Proof.
  intros chain network days tx rest w Hs Hlen Hu.
  assert (Hold : forall w0,
             stopping w0 = stopping w -> transactions w0 = transactions w ->
             coins w0 = coins w -> now w0 = now w ->
             filter (matchesTx (oldMempoolTxs chain network
                                  (now w - days * ONE_DAY))) (transactions w)
             = tx :: rest ->
             processOldMempoolTxs env chain network days w0
             = (Pending,
                emits ([ Tx_countDocuments
                           (oldMempoolTxs chain network (now w - days * ONE_DAY));
                         Logger_info
                           ("Found " ++ show (Z.of_nat (List.length (tx :: rest)))
                            ++ " outdated " ++ chain ++ " " ++ network
                            ++ " mempool txs");
                         Tx_find
                           (oldMempoolTxs chain network (now w - days * ONE_DAY)) ]
                       ++ walk "Finding " tx
                            (firstn 51 (yieldRelatedOutputs env (transactions w)
                                          (coins w) (txid tx)))) w0)).
  { intros w0 Es Et Ec En Hcands.
    unfold processOldMempoolTxs, bind, Date_now, countDocuments, logger_info, find.
    cbn [transactions emit]. rewrite En, Et, Hcands. cbn [pipe].
    match goal with
    | |- context [transformOld env chain network tx ?w2] =>
        destruct (transforms_throw chain network tx w2) as (E & _);
          [cbn [stopping emit]; congruence
          |cbn [transactions coins emit]; now rewrite Et, Ec
          |cbn [transactions coins emit]; now rewrite Et, Ec
          |rewrite E]
    end.
    cbn [transactions coins emit]. rewrite Et, Ec.
    rewrite emits_app. reflexivity. }
  split.
  - intros Hcands. split; [now apply Hold|].
    intros Hr Hpair Hmode -> -> ->.
    unfold detectAndClear, detectAndClear_try. rewrite Hr, Hpair, Hmode.
    unfold bind at 1. unfold when at 1.
    rewrite (Hold (set_running true w)) by (reflexivity || assumption).
    reflexivity.
  - intros Hcands.
    unfold processAllInvalidTxs, bind, countDocuments, logger_info, find.
    cbn [transactions emit]. rewrite Hcands. cbn [pipe].
    match goal with
    | |- context [transformInvalid env tx ?w2] =>
        destruct (transforms_throw chain network tx w2 Hs Hlen Hu) as (_ & E);
          rewrite E
    end.
    rewrite emits_app. reflexivity.
Qed.

End Unreported.

(** The store [fiftyOne]: the run walks 51 coins of [T] and is left
    unsettled, with no error line and nothing deleted. *)
Lemma unreported_fiftyOne :
  fst (processOldMempoolTxs btc "BTC" "mainnet" 7 fiftyOne) = Pending
  /\ fst (detectAndClear btc fiftyOne) = Pending
  /\ transactions (snd (detectAndClear btc fiftyOne)) = transactions fiftyOne
  /\ mutationsOf (trace (snd (detectAndClear btc fiftyOne))) = []
  /\ fst (processAllInvalidTxs btc "BTC" "mainnet"
            (mkWorld [invalidT] (outputsOfT 51))) = Pending.
Proof.
  destruct (too_many_decendents_is_never_reported btc "BTC" "mainnet" 7 seedT []
              fiftyOne) as (Hold & _).
  - reflexivity.
  - vm_compute. lia.
  - vm_compute. repeat constructor.
  - destruct Hold as (Epass & Erun); [vm_compute; reflexivity|].
    rewrite Epass, Erun by reflexivity. cbn [fst snd].
    split; [reflexivity|]. split; [reflexivity|].
    split; [vm_compute; reflexivity|]. split; [vm_compute; reflexivity|].
    destruct (too_many_decendents_is_never_reported btc "BTC" "mainnet" 7
                invalidT [] (mkWorld [invalidT] (outputsOfT 51))) as (_ & Hinv).
    + reflexivity.
    + vm_compute. lia.
    + vm_compute. repeat constructor.
    + rewrite Hinv by (vm_compute; reflexivity). reflexivity.
Defined.

(** ** What a pass that resolved has done *)

Lemma Forall2_In_r {A : Type} (P : A -> A -> Prop) l l' y :
  Forall2 P l l' -> In y l' -> exists x, In x l /\ P x y.
Proof.
  induction 1 as [|a b l l' Hab _ IH]; intros Hin; [destruct Hin|].
  destruct Hin as [ <- | Hin].
  - exists a. split; [now left|assumption].
  - destruct (IH Hin) as (x & Hx & Hp). exists x. split; [now right|assumption].
Qed.

Section Postconditions.

Variable env : Env.
Hypothesis Hwet : DRY (args env) = false.

Lemma invalidatedIn_stays x w w' :
  onlyInvalidated env w w' -> invalidatedIn env x w -> invalidatedIn env x w'.
Proof.
  intros (HT & HC) (Ht & Hm & Hs). split; [|split].
  - intros t' Hin Hx.
    destruct (Forall2_In_r _ _ _ _ HT Hin) as (t & Hin0 & A1 & A2 & A3 & A4 & A5).
    destruct A5 as [A5|A5]; [|assumption]. rewrite A5. apply Ht; congruence.
  - intros c' Hin Hx.
    destruct (Forall2_In_r _ _ _ _ HC Hin)
      as (c & Hin0 & A1 & A2 & A3 & A4 & A5 & A6 & A7).
    destruct A6 as [A6|A6]; [|assumption]. rewrite A6. apply Hm; congruence.
  - intros c' Hin Hx.
    destruct (Forall2_In_r _ _ _ _ HC Hin)
      as (c & Hin0 & A1 & A2 & A3 & A4 & A5 & A6 & A7).
    destruct A7 as [A7|A7]; [|assumption]. rewrite A7. apply Hs; congruence.
Qed.

Lemma clearInvalid_invalidates invalidTxids x w :
  In x invalidTxids ->
  invalidatedIn env x (snd (clearInvalid env invalidTxids w)).
Proof.
  intros Hx. apply Set_has_In in Hx.
  destruct (clearInvalid_store env invalidTxids w Hwet) as (Ht & Hc).
  unfold invalidatedIn. rewrite Ht, Hc. split; [|split].
  - intros t Hin E. apply in_map_iff in Hin. destruct Hin as (t0 & <- & _).
    unfold invalidatedTx in *. destruct (Set_has (txid t0) invalidTxids) eqn:Eh.
    + reflexivity.
    + congruence.
  - intros c Hin E. apply in_map_iff in Hin. destruct Hin as (c0 & <- & _).
    cbn in *. rewrite E, Hx. reflexivity.
  - intros c Hin E. apply in_map_iff in Hin. destruct Hin as (c0 & <- & _).
    cbn in *. unfold spentByOneOf. rewrite E, Hx. reflexivity.
Qed.

Lemma transformInvalid_done data w w' :
  transformInvalid env data w = (Resolved None, w') ->
  invalidatedIn env (txid data) w'.
Proof.
  intros E. destruct (stopping w) eqn:Hs.
  { unfold transformInvalid in E. rewrite Hs in E. discriminate E. }
  rewrite (transformInvalid_loop env data w Hs) in E.
  destruct (closure_cases
              (yieldRelatedOutputs env (transactions w) (coins w) (txid data)) 0)
    as [(Hu & Hl)|[(pre & x & post & Ey & Hu & Hl & Hx)
                  |(pre & x & post & Ey & Hu & Hl & Hx)]]; [lia| | |].
  - rewrite forAwait_completed, walk_emits in E by assumption.
    unfold bind at 1 in E.
    pose proof (clearInvalid_invalidates
                  (Set_add (txid data) (fold_left addSpent
                     (yieldRelatedOutputs env (transactions w) (coins w)
                        (txid data)) []))
                  (txid data)
                  (emits (walk "Invalidating " data
                     (yieldRelatedOutputs env (transactions w) (coins w)
                        (txid data))) w)) as Hinv.
    destruct (clearInvalid env _ _) as [[[]|err|] w2]; try discriminate E.
    inversion E; subst w'. apply Hinv, Set_add_In. now left.
  - rewrite Ey, forAwait_invalid in E by assumption. discriminate E.
  - rewrite Ey, forAwait_tooMany in E by assumption. discriminate E.
Qed.

Lemma pipe_transformInvalid_finished cursor : forall w w',
  pipe (transformInvalid env) cursor w = (Resolved tt, w') ->
  forall t, In t cursor -> invalidatedIn env (txid t) w'.
Proof.
  induction cursor as [|data rest IH]; intros w w' E t Hin; [destruct Hin|].
  cbn [pipe] in E.
  destruct (transformInvalid env data w) as [[[err|]|err|] w1] eqn:Ed;
    try discriminate E.
  destruct Hin as [ <- | Hin]; [|now apply (IH w1 w' E)].
  apply (invalidatedIn_stays _ w1).
  - pose proof (preserves_pipe (onlyInvalidated env) (onlyInvalidated_refl env)
                  (onlyInvalidated_trans env) (transformInvalid env) rest
                  (preserves_transformInvalid (onlyInvalidated env)
                     (onlyInvalidated_refl env) (onlyInvalidated_trans env)
                     (onlyInvalidated_emit env) env
                     (onlyInvalidated_clearInvalid env)) w1) as H.
    now rewrite E in H.
  - now apply (transformInvalid_done data w).
Qed.

(** X14.  What an invalid pass that resolved has done, outside
    dry-run.  For every transaction that matched the pass's query: every
    transaction with its txid has the conflicting height, every coin it
    minted has the conflicting mint height, and every coin that names it
    as spender has the unspent spent-height.  The pass matches by txid
    alone, so this includes records of other chains and networks. *)
Theorem invalid_pass_invalidates_every_candidate :
  forall chain network w w',
    processAllInvalidTxs env chain network w = (Resolved tt, w') ->
    forall t,
      In t (transactions w) ->
      matchesTx (invalidTxs chain network) t = true ->
      (forall t', In t' (transactions w') -> txid t' = txid t ->
                  blockHeight t' = conflicting (indicators env))
      /\ (forall c, In c (coins w') -> mintTxid c = txid t ->
                    mintHeight c = conflicting (indicators env))
      /\ (forall c, In c (coins w') -> spentTxid c = Some (txid t) ->
                    spentHeight c = unspent (indicators env)).
Proof.
  intros chain network w w' E t Hin Hm.
  unfold processAllInvalidTxs, bind, countDocuments, logger_info, find in E.
  cbn [transactions emit] in E.
  apply (pipe_transformInvalid_finished _ _ _ E t).
  apply filter_In. now split.
Qed.

Lemma removeOldMempool_wet_coins chain network txids w :
  coins (snd (removeOldMempool env chain network txids w))
  = filter (fun c => negb (matchesCoin (deletedCoins chain network txids) c))
      (coins w).
Proof. unfold removeOldMempool. rewrite Hwet. reflexivity. Qed.

Lemma transformOld_done_coins chain network data w w' :
  transformOld env chain network data w = (Resolved None, w') ->
  forall c, In c (coins w') ->
            matchesCoin (deletedCoins chain network [txid data]) c = false.
Proof.
  intros E. destruct (stopping w) eqn:Hs.
  { unfold transformOld in E. rewrite Hs in E. discriminate E. }
  rewrite (transformOld_loop env chain network data w Hs) in E.
  destruct (closure_cases
              (yieldRelatedOutputs env (transactions w) (coins w) (txid data)) 0)
    as [(Hu & Hl)|[(pre & x & post & Ey & Hu & Hl & Hx)
                  |(pre & x & post & Ey & Hu & Hl & Hx)]]; [lia| | |].
  - rewrite forAwait_completed, walk_emits in E by assumption.
    unfold bind at 1 in E.
    pose proof (removeOldMempool_wet_coins chain network
                  (Set_add (txid data) (fold_left addSpent
                     (yieldRelatedOutputs env (transactions w) (coins w)
                        (txid data)) []))
                  (emits (walk "Finding " data
                     (yieldRelatedOutputs env (transactions w) (coins w)
                        (txid data))) w)) as Hc.
    destruct (removeOldMempool env chain network _ _) as [[[]|err|] w2];
      try discriminate E.
    inversion E; subst w'. cbn [snd coins emit] in *.
    intros c Hin. rewrite Hc in Hin. apply filter_In in Hin.
    destruct Hin as [_ Hn]. apply negb_true_iff in Hn.
    revert Hn. unfold matchesCoin, deletedCoins, holds. cbn.
    destruct (String.eqb (coin_chain c) chain); [|reflexivity].
    destruct (String.eqb (coin_network c) network); [|reflexivity].
    destruct (String.eqb (mintTxid c) (txid data)) eqn:Em; [|reflexivity].
    apply String.eqb_eq in Em. rewrite Em.
    assert (Set_has (txid data) (Set_add (txid data) (fold_left addSpent
              (yieldRelatedOutputs env (transactions w) (coins w) (txid data)) []))
            = true) as -> by (apply Set_has_In, Set_add_In; now left).
    cbn. intros ->. reflexivity.
  - rewrite Ey, forAwait_invalid in E by assumption. discriminate E.
  - rewrite Ey, forAwait_tooMany in E by assumption. discriminate E.
Qed.

Lemma pipe_transformOld_finished_coins chain network cursor : forall w w',
  pipe (transformOld env chain network) cursor w = (Resolved tt, w') ->
  forall t c, In t cursor -> In c (coins w') ->
              matchesCoin (deletedCoins chain network [txid t]) c = false.
Proof.
  induction cursor as [|data rest IH]; intros w w' E t c Hin Hc; [destruct Hin|].
  cbn [pipe] in E.
  destruct (transformOld env chain network data w) as [[[err|]|err|] w1] eqn:Ed;
    try discriminate E.
  destruct Hin as [ <- | Hin]; [|now apply (IH w1 w' E)].
  apply (transformOld_done_coins chain network data w w1 Ed).
  pose proof (preserves_pipe (keepsOutside chain network)
                (keepsOutside_refl chain network)
                (keepsOutside_trans chain network)
                (transformOld env chain network) rest
                (fun tx =>
                   transformOld_by_cascade (keepsOutside chain network)
                     (keepsOutside_refl chain network)
                     (keepsOutside_trans chain network)
                     (keepsOutside_emit chain network) env chain network tx
                     (keepsOutside_removeOldMempool env chain network)) w1)
    as ((_ & Hsub) & _).
  rewrite E in Hsub. now apply Hsub.
Qed.

(** X15.  What an old-mempool pass that resolved has done, outside
    dry-run.  Every transaction that matched the pass's query is gone,
    and so is every coin of the pair that such a transaction minted at
    height -1. *)
Theorem old_mempool_pass_removes_every_candidate :
  forall chain network days w w',
    processOldMempoolTxs env chain network days w = (Resolved tt, w') ->
    forall t,
      In t (transactions w) ->
      matchesTx (oldMempoolTxs chain network (now w - days * ONE_DAY)) t = true ->
      ~ In t (transactions w')
      /\ (forall c, In c (coins w') ->
                    ~ (coin_chain c = chain /\ coin_network c = network
                       /\ mintTxid c = txid t /\ mintHeight c = -1)).
Proof.
  intros chain network days w w' E t Hin Hm.
  unfold processOldMempoolTxs, bind, Date_now, countDocuments, logger_info, find
    in E. cbn [transactions emit] in E.
  destruct (pipe _ _ _) as [[[]|err|] wb] eqn:Ep; try discriminate E.
  inversion E; subst w'. clear E. cbn [transactions coins emit].
  assert (Hcand : In t (filter (matchesTx (oldMempoolTxs chain network
                                            (now w - days * ONE_DAY)))
                          (transactions w))) by (apply filter_In; now split).
  split.
  - destruct (pipe_transformOld_finished env chain network _ _ _ Hwet Ep)
      as (_ & Hgone).
    apply (Hgone t Hcand).
    revert Hm. unfold matchesTx, oldMempoolTxs, deleted, Set_has, holds. cbn.
    rewrite String.eqb_refl. cbn.
    destruct (String.eqb (tx_chain t) chain); [|discriminate].
    destruct (String.eqb (tx_network t) network); [|discriminate].
    destruct (blockHeight t =? -1); [reflexivity|discriminate].
  - intros c Hc (H1 & H2 & H3 & H4).
    pose proof (pipe_transformOld_finished_coins chain network _ _ _ Ep t c
                  Hcand Hc) as Hn.
    revert Hn. unfold matchesCoin, deletedCoins, Set_has, holds. cbn.
    rewrite H1, H2, H3, H4, !String.eqb_refl. cbn. discriminate.
Qed.

End Postconditions.

Lemma invalid_pass_scenarioB :
  Forall (fun t' => txid t' = "T" -> blockHeight t' = -3)
    (transactions (snd (processAllInvalidTxs btc "BTC" "mainnet" scenarioB)))
  /\ Forall (fun c => spentTxid c = Some "T" -> spentHeight c = -2)
       (coins (snd (processAllInvalidTxs btc "BTC" "mainnet" scenarioB))).
Proof.
  destruct (invalid_pass_invalidates_every_candidate btc eq_refl "BTC" "mainnet"
              scenarioB (snd (processAllInvalidTxs btc "BTC" "mainnet" scenarioB))
              ltac:(vm_compute; reflexivity) invalidT)
    as (Ht & _ & Hs).
  - now left.
  - reflexivity.
  - split; apply Forall_forall; [exact Ht|exact Hs].
Defined.

Lemma old_pass_scenarioA :
  ~ In seedT (transactions
                (snd (processOldMempoolTxs btc "BTC" "mainnet" 7 scenarioA))).
Proof.
  apply (old_mempool_pass_removes_every_candidate btc eq_refl "BTC" "mainnet" 7
           scenarioA (snd (processOldMempoolTxs btc "BTC" "mainnet" 7 scenarioA))
           ltac:(vm_compute; reflexivity) seedT).
  - now left.
  - reflexivity.
Defined.

(** ** The old-mempool pass and the clock *)

